(** * serapis.extract: page-to-record extraction

    A shallow embedding of [serapis/extract.py] (classes [PageRequest] and
    [DiffbotRequest]) and the properties of its specification.

    Python unicode strings are lists of code points ([N]); the regular
    expressions of the module run on a small backtracking matcher that
    follows Python's [re] on the constructs the module uses. *)

From Stdlib Require Import NArith ZArith List Bool String Ascii Lia.
From stdpp Require Import base list gmap.
Import ListNotations.

Local Open Scope N_scope.

(** ** Python strings *)

Module Py.

Definition char := N.
Definition str := list N.

(** An ASCII literal as a Python string. *)
Definition U (s : string) : str := map N_of_ascii (list_ascii_of_string s).

Definition nl : char := 10.
Definition sp : char := 32.
Definition dq : char := 34.   (* the double quote *)
Definition sq : char := 39.   (* the single quote *)

(** A literal between double quotes. *)
Definition Q (s : string) : str := dq :: U s ++ [dq].

Definition str_eqb (a b : str) : bool := bool_decide (a = b).

(** [sep.join(l)] *)
Fixpoint join (sep : str) (l : list str) : str :=
  match l with
  | [] => []
  | [x] => x
  | x :: rest => x ++ sep ++ join sep rest
  end.

(** [s.split('\n\n')]: cut at every non-overlapping blank line, scanning
    from the left; the result always has at least one piece. *)
Fixpoint split_blank_from (acc : str) (s : str) : list str :=
  match s with
  | [] => [rev acc]
  | c :: t =>
      match t with
      | d :: rest =>
          if (c =? nl) && (d =? nl) then rev acc :: split_blank_from [] rest
          else split_blank_from (c :: acc) t
      | [] => [rev (c :: acc)]
      end
  end.

Definition split_blank (s : str) : list str := split_blank_from [] s.

(** [s.startswith(p)] *)
Fixpoint startswith (p s : str) : bool :=
  match p, s with
  | [], _ => true
  | a :: p', b :: s' => (a =? b) && startswith p' s'
  | _ :: _, [] => false
  end.

Definition mem (c : char) (cs : str) : bool := existsb (N.eqb c) cs.

Fixpoint lstrip (cs : str) (s : str) : str :=
  match s with
  | c :: t => if mem c cs then lstrip cs t else s
  | [] => []
  end.

(** [s.strip(cs)] *)
Definition strip (cs : str) (s : str) : str :=
  rev (lstrip cs (rev (lstrip cs s))).

End Py.

Import Py.

(** ** Regular expressions *)

Module Re.

(** The patterns of the module only repeat single characters, so the
    repetition operators take an [atom]. *)
Inductive atom : Type :=
| Lit (c : char)                      (* a literal character *)
| Any                                 (* [.]: everything but a newline *)
| Cls (neg : bool) (cs : list char).  (* [[...]] and [[^...]] *)

Inductive re : Type :=
| Eps
| One (a : atom)
| Star (a : atom)            (* greedy [a*] *)
| Plus (a : atom)            (* greedy [a+] *)
| Opt (a : atom)             (* greedy [a?] *)
| Seq (r1 r2 : re)
| Alt (r1 r2 : re)
| Grp (n : nat) (r : re)     (* capture group number [n] *)
| Ref (n : nat).             (* back-reference [\n] *)

(** Without the LOCALE and UNICODE flags, IGNORECASE folds ASCII letters
    only. *)
Definition lower (c : char) : char :=
  if (65 <=? c) && (c <=? 90) then c + 32 else c.

Definition chr_eq (icase : bool) (p c : char) : bool :=
  if icase then lower p =? lower c else p =? c.

Definition atom_ok (icase : bool) (a : atom) (c : char) : bool :=
  match a with
  | Lit p => chr_eq icase p c
  | Any => negb (c =? nl)
  | Cls neg cs => xorb neg (existsb (fun p => chr_eq icase p c) cs)
  end.

(** The text of the groups matched so far. *)
Definition caps := nat -> option str.
Definition no_caps : caps := fun _ => None.
Definition set_cap (n : nat) (w : str) (c : caps) : caps :=
  fun m => if Nat.eqb m n then Some w else c m.

(** [strip_prefix icase g s]: the rest of [s] after a copy of [g]. *)
Fixpoint strip_prefix (icase : bool) (g s : str) : option str :=
  match g, s with
  | [], _ => Some s
  | a :: g', b :: s' => if chr_eq icase a b then strip_prefix icase g' s' else None
  | _ :: _, [] => None
  end.

Section Exec.
Context {A : Type}.
Variable icase : bool.

(** Greedy repetition: take as many as possible, give back one at a
    time. *)
Fixpoint star_loop (a : atom) (s : str) (k : str -> option A) : option A :=
  match s with
  | c :: t =>
      if atom_ok icase a c then
        match star_loop a t k with
        | Some x => Some x
        | None => k s
        end
      else k s
  | [] => k []
  end.

Definition one_step (a : atom) (s : str) (k : str -> option A) : option A :=
  match s with
  | c :: t => if atom_ok icase a c then k t else None
  | [] => None
  end.

(** Backtracking match of [r] at the head of [s]; [k] is the rest of
    the pattern. The first alternative that lets [k] succeed wins. *)
Fixpoint exec (r : re) (s : str) (c : caps) (k : str -> caps -> option A)
  : option A :=
  match r with
  | Eps => k s c
  | One a => one_step a s (fun t => k t c)
  | Star a => star_loop a s (fun t => k t c)
  | Plus a => one_step a s (fun t => star_loop a t (fun u => k u c))
  | Opt a =>
      match one_step a s (fun t => k t c) with
      | Some x => Some x
      | None => k s c
      end
  | Seq r1 r2 => exec r1 s c (fun t c1 => exec r2 t c1 k)
  | Alt r1 r2 =>
      match exec r1 s c k with
      | Some x => Some x
      | None => exec r2 s c k
      end
  | Grp n r1 =>
      exec r1 s c
        (fun t c1 => k t (set_cap n (take (length s - length t) s) c1))
  | Ref n =>
      match c n with
      | Some g =>
          match strip_prefix icase g s with
          | Some t => k t c
          | None => None
          end
      | None => None
      end
  end.
End Exec.

(** A match at the head of [s]: what is left of [s], and the groups. *)
Definition match_at (icase : bool) (r : re) (s : str) : option (str * caps) :=
  exec icase r s no_caps (fun t c => Some (t, c)).

(** [bool(re.search(r, s))] *)
Fixpoint search (icase : bool) (r : re) (s : str) : bool :=
  match match_at icase r s with
  | Some _ => true
  | None =>
      match s with
      | [] => false
      | _ :: t => search icase r t
      end
  end.

Definition group (n : nat) (c : caps) : str := default [] (c n).

(** [re.findall(r, s)] for a pattern with one group: the text of group 1
    of every match, left to right, the scan resuming where a match ended.
    An empty match is passed over (no pattern of the module has one). *)
Fixpoint findall_fuel (fuel : nat) (icase : bool) (r : re) (s : str) : list str :=
  match fuel with
  | O => []
  | S fuel' =>
      match match_at icase r s, s with
      | Some (t, c), _ :: s' =>
          if (length t <? length s)%nat
          then group 1 c :: findall_fuel fuel' icase r t
          else findall_fuel fuel' icase r s'
      | None, _ :: s' => findall_fuel fuel' icase r s'
      | _, [] => []
      end
  end.

Definition findall (icase : bool) (r : re) (s : str) : list str :=
  findall_fuel (S (length s)) icase r s.

(** [re.sub(r, repl, s)] for a pattern that cannot match the empty
    string. *)
Fixpoint sub_fuel (fuel : nat) (icase : bool) (r : re) (repl s : str) : str :=
  match fuel with
  | O => s
  | S fuel' =>
      match match_at icase r s, s with
      | Some (t, _), ch :: s' =>
          if (length t <? length s)%nat
          then repl ++ sub_fuel fuel' icase r repl t
          else ch :: sub_fuel fuel' icase r repl s'
      | None, ch :: s' => ch :: sub_fuel fuel' icase r repl s'
      | _, [] => []
      end
  end.

Definition sub (icase : bool) (r : re) (repl s : str) : str :=
  sub_fuel (S (length s)) icase r repl s.

(** Pattern building. *)
Definition lit (s : str) : re := foldr (fun c r => Seq (One (Lit c)) r) Eps s.
Fixpoint alts (l : list re) : re :=
  match l with
  | [] => Eps
  | [x] => x
  | x :: rest => Alt x (alts rest)
  end.
Definition seqs (l : list re) : re := foldr Seq Eps l.

(** The characters with a meaning in a pattern. A string spliced into a
    pattern stands for itself only when it has none of them. *)
Definition special : str := U ".^$*+?{}[]\|()".
Definition plain (s : str) : bool := forallb (fun c => negb (mem c special)) s.

(** What a pattern matches, without the search order: [matches icase r c
    w c'] when [r] can consume exactly [w], taking the groups from [c] to
    [c']. *)
Definition same (icase : bool) (p w : str) : Prop :=
  Forall2 (fun a b => chr_eq icase a b = true) p w.

Inductive matches (icase : bool) : re -> caps -> str -> caps -> Prop :=
| M_eps c : matches icase Eps c [] c
| M_one a ch c :
    atom_ok icase a ch = true -> matches icase (One a) c [ch] c
| M_star a w c :
    forallb (atom_ok icase a) w = true -> matches icase (Star a) c w c
| M_plus a ch w c :
    atom_ok icase a ch = true -> forallb (atom_ok icase a) w = true ->
    matches icase (Plus a) c (ch :: w) c
| M_opt_none a c : matches icase (Opt a) c [] c
| M_opt_some a ch c :
    atom_ok icase a ch = true -> matches icase (Opt a) c [ch] c
| M_seq r1 r2 c c1 c2 w1 w2 :
    matches icase r1 c w1 c1 -> matches icase r2 c1 w2 c2 ->
    matches icase (Seq r1 r2) c (w1 ++ w2) c2
| M_alt_l r1 r2 c w c' :
    matches icase r1 c w c' -> matches icase (Alt r1 r2) c w c'
| M_alt_r r1 r2 c w c' :
    matches icase r2 c w c' -> matches icase (Alt r1 r2) c w c'
| M_grp n r c w c1 :
    matches icase r c w c1 -> matches icase (Grp n r) c w (set_cap n w c1)
| M_ref n c g w :
    c n = Some g -> same icase g w -> matches icase (Ref n) c w c.

End Re.

(** ** Python values and exceptions *)

Inductive exn : Type :=
| TypeError | KeyError | IndexError | AttributeError | AssertionError
| TransportError | DecodeError | IOError.

(** The outcome of running a piece of code: a value, an exception that
    leaves it, or a loop still running when the fuel ends. *)
Inductive outcome (A : Type) : Type :=
| Done (a : A)
| Raised (e : exn)
| Running.
Arguments Done {A} a.
Arguments Raised {A} e.
Arguments Running {A}.

#[global] Instance outcome_ret : MRet outcome := fun _ a => Done a.
#[global] Instance outcome_bind : MBind outcome := fun _ _ f m =>
  match m with
  | Done a => f a
  | Raised e => Raised e
  | Running => Running
  end.

(** A decoded JSON document, as [Response.json()] returns it; [JNull] is
    Python's [None]. An object keeps its members in a list, looked up from
    the front. *)
#[local] Unset Elimination Schemes.
Inductive json : Type :=
| JNull
| JBool (b : bool)
| JNum (z : Z)
| JStr (s : str)
| JArr (l : list json)
| JObj (l : list (str * json)).
#[local] Set Elimination Schemes.

Fixpoint assoc {V} (k : str) (l : list (str * V)) : option V :=
  match l with
  | [] => None
  | (k', v) :: rest => if str_eqb k k' then Some v else assoc k rest
  end.

(** [bool(v)] *)
Definition truthy (v : json) : bool :=
  match v with
  | JNull => false
  | JBool b => b
  | JNum z => negb (z =? 0)%Z
  | JStr s => negb (str_eqb s [])
  | JArr l => match l with [] => false | _ => true end
  | JObj l => match l with [] => false | _ => true end
  end.

Fixpoint has_sub (p s : str) : bool :=
  startswith p s || match s with [] => false | _ :: t => has_sub p t end.

Definition is_jstr (k : str) (v : json) : bool :=
  match v with JStr s => str_eqb s k | _ => false end.

(** [k in v] for a string [k] *)
Definition py_in (k : str) (v : json) : outcome bool :=
  match v with
  | JObj l => Done (match assoc k l with Some _ => true | None => false end)
  | JArr l => Done (existsb (is_jstr k) l)
  | JStr s => Done (has_sub k s)
  | _ => Raised TypeError
  end.

(** [v[k]] for a string [k] *)
Definition getitem (v : json) (k : str) : outcome json :=
  match v with
  | JObj l => match assoc k l with Some x => Done x | None => Raised KeyError end
  | _ => Raised TypeError
  end.

(** [v[0]] *)
Definition getitem0 (v : json) : outcome json :=
  match v with
  | JArr (x :: _) => Done x
  | JArr [] => Raised IndexError
  | JStr (c :: _) => Done (JStr [c])
  | JStr [] => Raised IndexError
  | JObj _ => Raised KeyError
  | _ => Raised TypeError
  end.

(** [v.get(k)] *)
Definition py_get (v : json) (k : str) : outcome json :=
  match v with
  | JObj l => Done (default JNull (assoc k l))
  | _ => Raised AttributeError
  end.

(** [assert v] *)
Definition py_assert (b : bool) : outcome unit :=
  if b then Done tt else Raised AssertionError.

(** ** The world outside the module *)

(** What [requests.get] hands back. [bool(response)] is [resp_ok];
    [resp_text] is [None] when reading [response.text] raises, which is
    when [hasattr(response, "text")] is false. *)
Record Response : Type := {
  resp_ok : bool;
  resp_text : option str
}.

Inductive api_outcome : Type :=
| ApiTransportError
| ApiDecodeError
| ApiDecoded (j : json).

(** The network: [http url n] is the result of the [n]-th GET of a run
    ([None]: the call raises); [api token url] is the result of the one
    call to the article API followed by [.json()]. *)
Record World : Type := {
  http : str -> nat -> option Response;
  api : str -> str -> api_outcome
}.

(** [serapis.config.config], read only. *)
Record Config : Type := {
  request_retry : Z;
  request_seconds_before_retry : Z;   (* a number, handed to time.sleep *)
  save_html : bool;
  credentials_diffbot : str
}.

Inductive event : Type :=
| Get (url : str)                 (* requests.get(url, timeout=10) *)
| ApiGet (url : str)              (* requests.get(diff_article_api, ...) *)
| Sleep (seconds : Z)             (* time.sleep that returns *)
| LogError (msg : str)            (* log.error *)
| LogInfo (msg : str).            (* log.info *)

Definition trace := list event.

Definition is_get (e : event) : bool :=
  match e with Get _ => true | _ => false end.
Definition is_error (e : event) : bool :=
  match e with LogError _ => true | _ => false end.
Definition is_info (e : event) : bool :=
  match e with LogInfo _ => true | _ => false end.

Definition count (p : event -> bool) (t : trace) : nat :=
  length (List.filter p t).

(** ** Collaborators

    The modules [serapis.language], [serapis.preprocess] and
    [serapis.util], and the libraries [html2text] and [bs4], are used
    through their interface only. *)
Class Collaborators : Type := {
  is_english : str -> bool;
  paragraph_to_sentences : str -> str -> list str;
  qualify_sentence : str -> bool;
  clean_sentence : str -> str -> str * list str;
  get_source_from_url : str -> str;
  (** [squashed(text, keep)] *)
  squashed : str -> str -> str;
  (** Modelled from the spec: [serapis.util.squashed] is not part of the
      sources at hand; squashing strips everything from the term, so the
      squashed term carries no character that is an operator in a
      pattern. *)
  squashed_plain : forall text, Re.plain (squashed text []) = true;
  (** [html_parser.handle(html)]; [None] when it raises. *)
  html2text_handle : str -> option str;
  (** [BeautifulSoup(html, 'html5lib')], the three searches of
      [parse_response], [el.extract()] and [soup.get_text()]. *)
  soup : Type;
  element : Type;
  BeautifulSoup : str -> soup;
  find_names : list str -> soup -> list element;
  find_class : str -> soup -> list element;
  find_id : str -> soup -> list element;
  extract : element -> soup -> soup;
  get_text : soup -> str;
  (** The order in which the interpreter iterates over a dict with the
      given entries. *)
  dict_items : list (str * str) -> list (str * str);
  dict_items_perm : forall d, Permutation (dict_items d) d
}.

(** ** class PageRequest *)

Module PageRequest.

Record Sentence : Type := { s : str; s_clean : str }.

Record Features : Type := { highlighted : bool; quotes : bool }.

Inductive response_value : Type :=
| Http (r : Response)
| Api (j : json).

(** The attributes of a request object; [features = None] is the empty
    dict [__init__] leaves there. *)
Record obj : Type := {
  url : str;
  term : str;
  variants : gset str;
  sentences : list Sentence;
  text : json;
  html : json;
  features : option Features;
  author : json;
  title : json;
  response : option response_value
}.

Definition set_found (vs : gset str) (ss : list Sentence) (o : obj) : obj :=
  {| url := url o; term := term o; variants := vs; sentences := ss;
     text := text o; html := html o; features := features o;
     author := author o; title := title o; response := response o |}.

Definition set_text (v : json) (o : obj) : obj :=
  {| url := url o; term := term o; variants := variants o;
     sentences := sentences o; text := v; html := html o;
     features := features o; author := author o; title := title o;
     response := response o |}.

Definition set_html (v : json) (o : obj) : obj :=
  {| url := url o; term := term o; variants := variants o;
     sentences := sentences o; text := text o; html := v;
     features := features o; author := author o; title := title o;
     response := response o |}.

Definition set_features (f : option Features) (o : obj) : obj :=
  {| url := url o; term := term o; variants := variants o;
     sentences := sentences o; text := text o; html := html o;
     features := f; author := author o; title := title o;
     response := response o |}.

Definition set_author (v : json) (o : obj) : obj :=
  {| url := url o; term := term o; variants := variants o;
     sentences := sentences o; text := text o; html := html o;
     features := features o; author := v; title := title o;
     response := response o |}.

Definition set_title (v : json) (o : obj) : obj :=
  {| url := url o; term := term o; variants := variants o;
     sentences := sentences o; text := text o; html := html o;
     features := features o; author := author o; title := v;
     response := response o |}.

Definition set_response (r : option response_value) (o : obj) : obj :=
  {| url := url o; term := term o; variants := variants o;
     sentences := sentences o; text := text o; html := html o;
     features := features o; author := author o; title := title o;
     response := r |}.

Definition OPENING_QUOTES : list str :=
  [ [dq]; [sq]; U "&quot;"; [8220]; U "&ldquo;"; [8216]; U "&lsquo;";
    [171]; U "&laquo;"; [8249]; U "&lsaquo;"; [8222]; U "&bdquo;";
    [8218]; U "&sbquo;" ].

Definition CLOSING_QUOTES : list str :=
  [ [sq]; U "&quot;"; [8221]; U "&rdquo;"; [8217]; U "&rsquo;";
    [187]; U "&raquo;"; [8250]; U "&rsaquo;"; [8220]; U "&ldquo;";
    [8216]; U "&lsquo;" ].

(** The structured record; [r_html] is there when [config.save_html]. *)
Record Record_ : Type := {
  r_term : str;
  r_url : str;
  r_source : str;
  r_doc : json;
  r_features : option Features;
  r_variants : list str;
  r_sentences : list Sentence;
  r_author : json;
  r_title : json;
  r_html : option json
}.

Section Methods.
Context `{Collaborators}.
Variable config : Config.
Variable world : World.

(** [time.sleep(seconds)]: with a negative delay the call raises
    ([IOError] under Python 2, the interpreter of the module), and the
    loop has no handler around it. *)
Definition sleep (seconds : Z) (t : trace) : outcome trace :=
  if (seconds <? 0)%Z then Raised IOError else Done (t ++ [Sleep seconds]).

(** The [while attempts:] loop of [request_page]; each turn of the loop
    takes one unit of fuel. *)
Fixpoint request_loop (fuel : nat) (self : obj) (attempts : Z) (t : trace)
  : outcome (option Response * trace) :=
  if (attempts =? 0)%Z then
    Done (None,
          t ++ [LogError (U "Failed to return page for url: " ++ url self)])
  else
    match fuel with
    | O => Running
    | S fuel' =>
        let response := http world (url self) (count is_get t) in
        let t1 := t ++ [Get (url self)] in
        match response with
        | Some r =>
            if resp_ok r && bool_decide (is_Some (resp_text r))
            then Done (Some r, t1)
            else
              t2 ← sleep (request_seconds_before_retry config) t1;
              request_loop fuel' self (attempts - 1) t2
        | None =>
            t2 ← sleep (request_seconds_before_retry config) t1;
            request_loop fuel' self (attempts - 1) t2
        end
    end.

Definition request_page (fuel : nat) (self : obj) (t : trace)
  : outcome (option Response * trace) :=
  request_loop fuel self (request_retry config) t.

(** One turn of the inner loop of [extract_sentences]. *)
Definition visit_sentence (tm : str) (st : list str * (gset str * list Sentence))
    (sentence : str) : list str * (gset str * list Sentence) :=
  let '(doc, (vs, ss)) := st in
  if qualify_sentence sentence then
    let doc := doc ++ [sentence] in
    let '(c, found) := clean_sentence sentence tm in
    if negb (bool_decide (found = [])) &&
       negb (bool_decide (c ∈ map s_clean ss))
    then (doc, (list_to_set found ∪ vs, ss ++ [ {| s := sentence; s_clean := c |} ]))
    else (doc, (vs, ss))
  else st.

(** One turn of the outer loop. *)
Definition visit_paragraph (tm : str) (st : list str * (gset str * list Sentence))
    (paragraph : str) : list str * (gset str * list Sentence) :=
  if is_english paragraph
  then foldl (visit_sentence tm) st (paragraph_to_sentences paragraph tm)
  else st.

Definition extract_sentences (self : obj) (page_text : str) : obj * str :=
  let '(doc, (vs, ss)) :=
    foldl (visit_paragraph (term self)) ([], (variants self, sentences self))
      (split_blank page_text) in
  (set_found vs ss self, join [sp] doc).

(** [dict] literals: a later entry with the same key replaces the
    value of the earlier one. *)
Fixpoint dict_set (k v : str) (d : list (str * str)) : list (str * str) :=
  match d with
  | [] => [(k, v)]
  | (k', v') :: rest =>
      if str_eqb k k' then (k, v) :: rest else (k', v') :: dict_set k v rest
  end.

Definition dict_literal (l : list (str * str)) : list (str * str) :=
  foldl (fun d kv => dict_set kv.1 kv.2 d) [] l.

Definition prop_names : list (str * str) :=
  dict_literal
    [ (U "name", U "author");
      (U "property", U "og:author");
      (U "property", U "article:author") ].

(** [< *meta.+{}=.?{}.? content=(D[^D]+D|'[^']+') [^>]>], where D
    stands for the double quote (written with a backslash in the
    source), and the two slots take the key and the value of an entry
    of [prop_names]. *)
Definition m_re (prop value : str) : Re.re :=
  Re.seqs
    [ Re.One (Re.Lit 60); Re.Star (Re.Lit sp); Re.lit (U "meta");
      Re.Plus Re.Any; Re.lit prop; Re.One (Re.Lit 61); Re.Opt Re.Any;
      Re.lit value; Re.Opt Re.Any; Re.lit (U " content=");
      Re.Grp 1
        (Re.Alt
           (Re.seqs [ Re.One (Re.Lit dq); Re.Plus (Re.Cls true [dq]);
                      Re.One (Re.Lit dq) ])
           (Re.seqs [ Re.One (Re.Lit sq); Re.Plus (Re.Cls true [sq]);
                      Re.One (Re.Lit sq) ]));
      Re.One (Re.Lit sp); Re.One (Re.Cls true [62]); Re.One (Re.Lit 62) ].

(** [< *title *>([^<]+)</ *title *>] *)
Definition title_re : Re.re :=
  Re.seqs
    [ Re.One (Re.Lit 60); Re.Star (Re.Lit sp); Re.lit (U "title");
      Re.Star (Re.Lit sp); Re.One (Re.Lit 62);
      Re.Grp 1 (Re.Plus (Re.Cls true [60]));
      Re.lit (U "</"); Re.Star (Re.Lit sp); Re.lit (U "title");
      Re.Star (Re.Lit sp); Re.One (Re.Lit 62) ].

Definition reasonable (author : str) : bool :=
  negb (str_eqb author []) && negb (startswith (U "http") author).

Definition get_meta (self : obj) (page_html : str) : obj :=
  let authors :=
    flat_map
      (fun pv => map (strip [sq; dq])
                   (Re.findall false (m_re pv.1 pv.2) page_html))
      (dict_items prop_names) in
  let authors := List.filter reasonable authors in
  let self := set_author (match authors with a :: _ => JStr a | [] => JNull end) self in
  let title_tags := Re.findall false title_re page_html in
  set_title (match title_tags with
             | x :: _ => JStr (strip [sp; nl] x)
             | [] => JNull
             end) self.

(** [<(em|i|b|strong|span)[^>]*> *{}[ ,:]*</\1>] *)
Definition highlight_re (minimal_term : str) : Re.re :=
  Re.seqs
    [ Re.One (Re.Lit 60);
      Re.Grp 1 (Re.alts (map Re.lit [U "em"; U "i"; U "b"; U "strong"; U "span"]));
      Re.Star (Re.Cls true [62]); Re.One (Re.Lit 62); Re.Star (Re.Lit sp);
      Re.lit minimal_term; Re.Star (Re.Cls false (U " ,:"));
      Re.lit (U "</"); Re.Ref 1; Re.One (Re.Lit 62) ].

(** [<({})[^>]*> *{}[ ,:]*</({})>] with the two tuples of quotes joined
    by [|] *)
Definition quote_re (minimal_term : str) : Re.re :=
  Re.seqs
    [ Re.One (Re.Lit 60);
      Re.Grp 1 (Re.alts (map Re.lit OPENING_QUOTES));
      Re.Star (Re.Cls true [62]); Re.One (Re.Lit 62); Re.Star (Re.Lit sp);
      Re.lit minimal_term; Re.Star (Re.Cls false (U " ,:"));
      Re.lit (U "</");
      Re.Grp 2 (Re.alts (map Re.lit CLOSING_QUOTES));
      Re.One (Re.Lit 62) ].

Definition get_html_features (self : obj) (page_html : str) : obj :=
  if str_eqb (term self) [] then self
  else
    let minimal_html := squashed page_html (U "<>/&;") in
    let minimal_term := squashed (term self) [] in
    set_features
      (Some {| highlighted := Re.search true (highlight_re minimal_term) minimal_html;
               quotes := Re.search true (quote_re minimal_term) minimal_html |})
      self.

(** The text for the sentence extraction: html2text first, Beautiful
    Soup when that raises. *)
Definition fallback_text (page_html : str) : str :=
  let sp0 := BeautifulSoup page_html in
  let els := find_names [U "head"; U "script"] sp0
             ++ find_class (U "comments") sp0
             ++ find_id (U "comments") sp0 in
  let sp1 := foldl (fun acc el => extract el acc) sp0 els in
  Re.sub false (Re.Plus (Re.Lit nl)) [nl; nl] (get_text sp1).

Definition parse_response (self : obj) (r : Response) (t : trace)
  : obj * trace :=
  let page_html := default [] (resp_text r) in
  let self := set_html (JStr page_html) self in
  let '(raw, t) :=
    match html2text_handle page_html with
    | Some raw => (raw, t)
    | None =>
        (fallback_text page_html,
         t ++ [LogInfo (U "Falling back on BeautifulSoup for '" ++ url self ++ U "'")])
    end in
  let '(self, doc) := extract_sentences self raw in
  let self := set_text (JStr doc) self in
  let self := get_html_features self page_html in
  (get_meta self page_html, t).

Definition structured (self : obj) : Record_ :=
  {| r_term := term self;
     r_url := url self;
     r_source := get_source_from_url (url self);
     r_doc := text self;
     r_features := features self;
     r_variants := elements (variants self);
     r_sentences := sentences self;
     r_author := author self;
     r_title := title self;
     r_html := if save_html config then Some (html self) else None |}.

Definition new (url term : str) : obj :=
  {| url := url; term := term; variants := ∅; sentences := [];
     text := JStr []; html := JStr []; features := None;
     author := JNull; title := JNull; response := None |}.

(** [PageRequest(url, term)] with [run=True]. *)
Definition init (fuel : nat) (url term : str) : outcome (obj * trace) :=
  let self := new url term in
  '(r, t) ← request_page fuel self [];
  match r with
  | Some resp =>
      mret (parse_response (set_response (Some (Http resp)) self) resp t)
  | None => mret (set_response None self, t)
  end.

End Methods.
End PageRequest.

(** ** class DiffbotRequest(PageRequest) *)

Module DiffbotRequest.
Import PageRequest.

Definition diff_article_api : str := U "http://api.diffbot.com/v3/article".

Section Methods.
Context `{Collaborators}.
Variable config : Config.
Variable world : World.

(** The body of the [try] block of [request_page]. *)
Definition checked_response (self : obj) : outcome json :=
  match api world (credentials_diffbot config) (url self) with
  | ApiTransportError => Raised TransportError
  | ApiDecodeError => Raised DecodeError
  | ApiDecoded j =>
      b ← py_in (U "objects") j;
      _ ← py_assert b;
      v ← getitem j (U "objects");
      _ ← py_assert (truthy v);
      mret j
  end.

(** The bare [except:] takes every exception. *)
Definition request_page (self : obj) (t : trace) : option json * trace :=
  let t1 := t ++ [ApiGet (url self)] in
  match checked_response self with
  | Done j => (Some j, t1)
  | _ =>
      (None,
       t1 ++ [LogError (U "Failed to return page for url: " ++ url self)])
  end.

Definition parse_response (self : obj) (j : json) : outcome obj :=
  objects ← getitem j (U "objects");
  o ← getitem0 objects;
  v_text ← py_get o (U "text");
  let self := set_text v_text self in
  v_html ← py_get o (U "html");
  let self := set_html v_html self in
  v_author ← py_get o (U "author");
  let self := set_author v_author self in
  v_title ← py_get o (U "title");
  let self := set_title v_title self in
  match v_html with
  | JStr page_html =>
      (* the text extract_sentences returns is dropped *)
      let self := (extract_sentences self page_html).1 in
      mret (get_html_features self page_html)
  | _ => Raised AttributeError   (* page_text.split *)
  end.

(** [DiffbotRequest(url, term)] with [run=True]. *)
Definition init (url term : str) : outcome (obj * trace) :=
  let self := new url term in
  let '(r, t) := request_page self [] in
  match r with
  | Some j =>
      let self := set_response (Some (Api j)) self in
      if truthy j
      then self' ← parse_response self j; mret (self', t)
      else mret (self, t)
  | None => mret (set_response None self, t)
  end.

End Methods.
End DiffbotRequest.

(** ** A sample set of collaborators

    Stand-ins on which the statements below are run on concrete pages. *)

Module Sample.

Definition is_alnum (c : char) : bool :=
  ((48 <=? c) && (c <=? 57)) || ((65 <=? c) && (c <=? 90))
  || ((97 <=? c) && (c <=? 122)).

Definition squash (text keep : str) : str :=
  List.filter (fun c => is_alnum c || mem c keep) (map Re.lower text).

(** A paragraph that mentions the term, in any case, is one candidate
    sentence. *)
Definition to_sentences (paragraph tm : str) : list str :=
  if has_sub (map Re.lower tm) (map Re.lower paragraph) then [paragraph] else [].

(** The term is a variant of itself where it occurs as written. *)
Definition clean (sentence tm : str) : str * list str :=
  (squash sentence [], if has_sub tm sentence then [tm] else []).

(** The converter gives up on a page with a NUL character. *)
Definition handle (page_html : str) : option str :=
  if mem 0 page_html then None else Some page_html.

Lemma squash_plain text : Re.plain (squash text []) = true.
Proof.
  unfold squash, Re.plain.
  induction (map Re.lower text) as [|c l IH]; [reflexivity|].
  cbn [List.filter]. rewrite orb_false_r.
  destruct (is_alnum c) eqn:E; [|exact IH].
  cbn [forallb]. rewrite IH, andb_true_r.
  unfold is_alnum in E.
  assert (Hs : Re.special = [46; 94; 36; 42; 43; 63; 123; 125; 91; 93; 92; 124; 40; 41])
    by reflexivity.
  rewrite Hs. cbn [mem existsb].
  repeat match goal with
         | |- context [c =? ?n] => destruct (N.eqb_spec c n) as [->|_]; [discriminate E|]
         end.
  reflexivity.
Qed.

Definition collaborators : Collaborators := {|
  is_english := fun _ => true;
  paragraph_to_sentences := to_sentences;
  qualify_sentence := fun sentence => negb (str_eqb sentence []);
  clean_sentence := clean;
  get_source_from_url := fun url => url;
  squashed := squash;
  squashed_plain := squash_plain;
  html2text_handle := handle;
  soup := str;
  element := unit;
  BeautifulSoup := fun page_html => page_html;
  find_names := fun _ _ => [];
  find_class := fun _ _ => [];
  find_id := fun _ _ => [];
  extract := fun _ sp0 => sp0;
  get_text := fun sp0 => sp0;
  dict_items := fun d => d;
  dict_items_perm := fun d => Permutation_refl d
|}.

(** Configuration and networks to run requests on. *)
Definition config : Config :=
  {| request_retry := 3; request_seconds_before_retry := 1;
     save_html := false; credentials_diffbot := U "token" |}.

(** Every GET is answered with [page]. *)
Definition serve (page : str) : World :=
  {| http := fun _ _ => Some {| resp_ok := true; resp_text := Some page |};
     api := fun _ _ => ApiTransportError |}.

(** No GET is ever answered; the article API answers with [body]. *)
Definition down (body : api_outcome) : World :=
  {| http := fun _ _ => None; api := fun _ _ => body |}.

Definition address : str := U "http://example.org/colours".

(** A body of the article API with one article. *)
Definition article : json :=
  JObj [ (U "objects",
          JArr [ JObj [ (U "text", JStr (U "A term here."));
                        (U "html", JStr (U "<p>A <b>term</b> here.</p>"));
                        (U "author", JStr (U "Jane Doe"));
                        (U "title", JStr (U "Terms")) ] ]) ].

(** Four ways to name the author of a page. *)
Definition og_page : str :=
  U "<meta property=" ++ Q "og:author" ++ U " content=" ++ Q "Jane Doe" ++ U " />".
Definition article_page : str :=
  U "<meta property=" ++ Q "article:author" ++ U " content=" ++ Q "Jane Doe" ++ U " />".
Definition slash_page : str :=
  U "<meta name=" ++ Q "author" ++ U " content=" ++ Q "Jane Doe" ++ U " />".
Definition plain_page : str :=
  U "<meta name=" ++ Q "author" ++ U " content=" ++ Q "Jane Doe" ++ U ">".

(** A page the converter gives up on, with one line break in its text. *)
Definition broken_page : str := [0] ++ U "a" ++ [nl] ++ U "b".

(** The term in bold, the term between a low quote and a guillemet
    written as tags, and the term on its own. *)
Definition bold_page : str := U "<p>see <b>Term</b></p>".
Definition quoted_page : str := U "<p>see <&bdquo;>Term</&raquo;></p>".

Definition quoted_text_page : str := U "<p>&bdquo;Term&raquo;</p>".

(** The first [n] GETs time out, the following ones are answered with
    [page]. *)
Definition flaky (n : nat) (page : str) : World :=
  {| http := fun _ i =>
       if (i <? n)%nat then None
       else Some {| resp_ok := true; resp_text := Some page |};
     api := fun _ _ => ApiTransportError |}.

(** A page that says the same sentence twice. *)
Definition twice : str :=
  U "A term here." ++ [nl; nl] ++ U "A term here.".

(** A page whose one sentence has the term in another case only. *)
Definition capital : str := U "A Term here.".

End Sample.

(** ** Vocabulary of the statements *)

(** Equal up to the case of ASCII letters. *)
Definition ci_eq (a b : str) : Prop := Re.same true a b.

Definition highlight_tags : list str :=
  [U "em"; U "i"; U "b"; U "strong"; U "span"].

(** [wrapped opening closing mt mh]: somewhere in the squashed page [mh]
    there is a [<], a word [o] of [opening] (in any case), characters
    other than [>], a [>], spaces, the squashed term [mt] (in any case),
    characters among space, comma and colon, [</], a word [c] of
    [closing] related to [o] by [paired], and [>]. *)
Definition wrapped (opening closing : list str) (paired : str -> str -> Prop)
    (mt mh : str) : Prop :=
  exists pre o otxt attrs spaces body trail c ctxt post,
    mh = pre ++ [60] ++ otxt ++ attrs ++ [62] ++ spaces ++ body ++ trail
             ++ U "</" ++ ctxt ++ [62] ++ post
    /\ o ∈ opening /\ ci_eq o otxt
    /\ Forall (fun ch => ch <> 62) attrs
    /\ Forall (fun ch => ch = sp) spaces
    /\ ci_eq mt body
    /\ Forall (fun ch => ch ∈ U " ,:") trail
    /\ c ∈ closing /\ ci_eq c ctxt /\ paired otxt ctxt.

(** The common shape of the two patterns of [get_html_features];
    [closing] is the part between [</] and [>]. *)
Definition wrap_re (opening : list str) (minimal_term : str) (closing : Re.re)
  : Re.re :=
  Re.seqs
    [ Re.One (Re.Lit 60);
      Re.Grp 1 (Re.alts (map Re.lit opening));
      Re.Star (Re.Cls true [62]); Re.One (Re.Lit 62); Re.Star (Re.Lit sp);
      Re.lit minimal_term; Re.Star (Re.Cls false (U " ,:"));
      Re.lit (U "</"); closing; Re.One (Re.Lit 62) ].

(** The term between an emphasis tag and the closing tag of the same
    name. *)
Definition highlight_wrapped (mt mh : str) : Prop :=
  wrapped highlight_tags highlight_tags ci_eq mt mh.

(** The term between a tag that starts with an opening quote and a
    closing tag that is a closing quote, whichever they are. *)
Definition quote_wrapped (mt mh : str) : Prop :=
  wrapped PageRequest.OPENING_QUOTES PageRequest.CLOSING_QUOTES
    (fun _ _ => True) mt mh.

Section Vocabulary.
Context `{Collaborators}.

(** The candidate sentences of a text, in the order in which
    [extract_sentences] meets them: those of the paragraphs in the
    target language. *)
Definition candidates (tm page_text : str) : list str :=
  flat_map
    (fun paragraph =>
       if is_english paragraph then paragraph_to_sentences paragraph tm else [])
    (split_blank page_text).

(** The candidates that pass the quality test. *)
Definition qualified (tm page_text : str) : list str :=
  List.filter qualify_sentence (candidates tm page_text).

Definition normalized (tm sentence : str) : str := (clean_sentence sentence tm).1.
Definition found_variants (tm sentence : str) : list str :=
  (clean_sentence sentence tm).2.

(** The doc list, the variant set and the sentence list of a fresh
    request after the inner loop of [extract_sentences] has seen the
    sentences [l]. *)
Definition visited (tm : str) (l : list str)
  : list str * (gset str * list PageRequest.Sentence) :=
  foldl (PageRequest.visit_sentence tm) ([], (∅, [])) l.

(** The text [parse_response] hands to [extract_sentences]. *)
Definition raw_text (page_html : str) : str :=
  match html2text_handle page_html with
  | Some raw => raw
  | None => PageRequest.fallback_text page_html
  end.
End Vocabulary.

(** Runs of newlines as the specification words them: a run of two or
    more becomes exactly two, a single newline stays. [seen] counts the
    newlines of the current run already kept. *)
Fixpoint spec_collapse_from (seen : nat) (s : str) : str :=
  match s with
  | [] => []
  | c :: t =>
      if c =? nl then
        if (seen <? 2)%nat then c :: spec_collapse_from (S seen) t
        else spec_collapse_from seen t
      else c :: spec_collapse_from 0 t
  end.

Definition spec_collapse (s : str) : str := spec_collapse_from 0 s.

(** Every run of one or more newlines becomes exactly two; [in_run] says
    that the run at hand has been written already. *)
Fixpoint double_newline_runs (in_run : bool) (s : str) : str :=
  match s with
  | [] => []
  | c :: t =>
      if c =? nl then
        if in_run then double_newline_runs true t
        else nl :: nl :: double_newline_runs true t
      else c :: double_newline_runs false t
  end.

(** The author candidates one entry of [prop_names] brings. *)
Definition authors_of (page_html : str) (pv : str * str) : list str :=
  map (strip [sq; dq])
    (Re.findall false (PageRequest.m_re pv.1 pv.2) page_html).

(** What is left after the newlines at the head. *)
Fixpoint skip_newlines (s : str) : str :=
  match s with
  | c :: t => if nl =? c then skip_newlines t else s
  | [] => []
  end.

(** A fetch attempt that [request_page] does not accept. *)
Definition failed (r : option Response) : bool :=
  match r with
  | Some r => negb (resp_ok r && bool_decide (is_Some (resp_text r)))
  | None => true
  end.

(** The decoded bodies [DiffbotRequest.request_page] accepts. *)
Definition valid_body (j : json) : bool :=
  match j with
  | JObj l =>
      match assoc (U "objects") l with
      | Some v => truthy v
      | None => false
      end
  | _ => false
  end.

Definition is_sleep (e : event) : bool :=
  match e with Sleep _ => true | _ => false end.
Definition is_api (e : event) : bool :=
  match e with ApiGet _ => true | _ => false end.

(** * Properties *)

(** ** The matcher against its specification *)

Section ReFacts.
Import Re.
Context {A : Type}.
Variable icase : bool.

Lemma star_loop_keeps a s (k : str -> option A) :
  is_Some (k s) -> is_Some (star_loop icase a s k).
Proof.
  destruct s as [|ch t]; cbn; [done|].
  intros Hk. destruct (atom_ok icase a ch); [|done].
  destruct (star_loop icase a t k); [eauto|done].
Qed.

Lemma star_loop_complete a w t (k : str -> option A) :
  forallb (atom_ok icase a) w = true ->
  is_Some (k t) -> is_Some (star_loop icase a (w ++ t) k).
Proof.
  induction w as [|ch w IH]; cbn [forallb app]; intros Hw Hk.
  - by apply star_loop_keeps.
  - apply andb_true_iff in Hw as [Hch Hw]. cbn. rewrite Hch.
    specialize (IH Hw Hk). destruct IH as [x ->]. eauto.
Qed.

Lemma star_loop_sound a s (k : str -> option A) x :
  star_loop icase a s k = Some x ->
  exists w t, s = w ++ t /\ forallb (atom_ok icase a) w = true /\ k t = Some x.
Proof.
  revert x. induction s as [|ch s IH]; cbn; intros x Hx.
  - exists [], []. done.
  - destruct (atom_ok icase a ch) eqn:Hch.
    + destruct (star_loop icase a s k) as [y|] eqn:Hrec.
      * injection Hx as ->. destruct (IH _ eq_refl) as (w & t & -> & Hw & Hk).
        exists (ch :: w), t. cbn. by rewrite Hch, Hw.
      * exists [], (ch :: s). done.
    + exists [], (ch :: s). done.
Qed.

Lemma strip_prefix_sound g s t :
  strip_prefix icase g s = Some t -> exists w, s = w ++ t /\ same icase g w.
Proof.
  revert s. induction g as [|a g IH]; intros s; cbn.
  - intros [= ->]. exists []. split; [done|constructor].
  - destruct s as [|b s]; [done|].
    destruct (chr_eq icase a b) eqn:E; [|done].
    intros Hs. destruct (IH _ Hs) as (w & -> & Hw).
    exists (b :: w). split; [done|by constructor].
Qed.

Lemma strip_prefix_complete g w t :
  same icase g w -> strip_prefix icase g (w ++ t) = Some t.
Proof.
  induction 1 as [|a b g w Hab _ IH]; cbn; [done|]. by rewrite Hab.
Qed.

Lemma exec_sound r : forall s c (k : str -> caps -> option A) x,
  exec icase r s c k = Some x ->
  exists w t c', s = w ++ t /\ matches icase r c w c' /\ k t c' = Some x.
Proof.
  induction r as [|a|a|a|a|r1 IH1 r2 IH2|r1 IH1 r2 IH2|n r IH|n];
    intros s c k x; cbn [exec].
  - intros Hk. exists [], s, c. repeat split; [constructor|done].
  - destruct s as [|ch t]; cbn; [done|].
    destruct (atom_ok icase a ch) eqn:Hch; [|done].
    intros Hk. exists [ch], t, c. repeat split; [by constructor|done].
  - intros Hx. apply star_loop_sound in Hx as (w & t & -> & Hw & Hk).
    exists w, t, c. repeat split; [by constructor|done].
  - destruct s as [|ch s]; cbn; [done|].
    destruct (atom_ok icase a ch) eqn:Hch; [|done].
    intros Hx. apply star_loop_sound in Hx as (w & t & -> & Hw & Hk).
    exists (ch :: w), t, c. repeat split; [by constructor|done].
  - destruct (one_step icase a s (fun t => k t c)) as [y|] eqn:Hone.
    + intros [= ->]. destruct s as [|ch t]; cbn in Hone; [done|].
      destruct (atom_ok icase a ch) eqn:Hch; [|done].
      exists [ch], t, c. repeat split; [by constructor|done].
    + intros Hk. exists [], s, c. repeat split; [constructor|done].
  - intros Hx. apply IH1 in Hx as (w1 & t1 & c1 & -> & H1 & Hx).
    apply IH2 in Hx as (w2 & t2 & c2 & -> & H2 & Hx).
    exists (w1 ++ w2), t2, c2. rewrite <- app_assoc.
    repeat split; [econstructor; eauto|done].
  - destruct (exec icase r1 s c k) as [y|] eqn:Hl.
    + intros [= ->]. apply IH1 in Hl as (w & t & c' & -> & Hm & Hk).
      exists w, t, c'. repeat split; [by apply M_alt_l|done].
    + intros Hr. apply IH2 in Hr as (w & t & c' & -> & Hm & Hk).
      exists w, t, c'. repeat split; [by apply M_alt_r|done].
  - intros Hx. apply IH in Hx as (w & t & c1 & -> & Hm & Hk).
    rewrite length_app, Nat.add_sub, take_app_length in Hk.
    exists w, t, (set_cap n w c1). repeat split; [by constructor|done].
  - destruct (c n) as [g|] eqn:Hg; [|done].
    destruct (strip_prefix icase g s) as [t|] eqn:Hp; [|done].
    intros Hk. apply strip_prefix_sound in Hp as (w & -> & Hw).
    exists w, t, c. repeat split; [econstructor; eauto|done].
Qed.

Lemma exec_complete r c w c' :
  matches icase r c w c' ->
  forall t (k : str -> caps -> option A),
    is_Some (k t c') -> is_Some (exec icase r (w ++ t) c k).
Proof.
  induction 1 as [c|a ch c Hch|a w c Hw|a ch w c Hch Hw|a c|a ch c Hch
                 |r1 r2 c c1 c2 w1 w2 _ IH1 _ IH2|r1 r2 c w c' _ IH
                 |r1 r2 c w c' _ IH|n r c w c1 _ IH|n c g w Hg Hw];
    intros t k Hk; cbn [exec].
  - done.
  - cbn. by rewrite Hch.
  - by apply (star_loop_complete a w t (fun u => k u c)).
  - cbn. rewrite Hch. by apply (star_loop_complete a w t (fun u => k u c)).
  - destruct (one_step icase a ([] ++ t) (fun u => k u c)); [eauto|done].
  - cbn. rewrite Hch. destruct Hk as [y ->]. eauto.
  - rewrite <- app_assoc. apply IH1. by apply IH2.
  - specialize (IH t k Hk). destruct IH as [y ->]. eauto.
  - destruct (exec icase r1 (w ++ t) c k); [eauto|]. by apply IH.
  - apply IH. by rewrite length_app, Nat.add_sub, take_app_length.
  - rewrite Hg. by rewrite (strip_prefix_complete g w t Hw).
Qed.
End ReFacts.

Lemma match_at_iff icase r s :
  is_Some (Re.match_at icase r s) <->
  exists w t c', s = w ++ t /\ Re.matches icase r Re.no_caps w c'.
Proof.
  unfold Re.match_at. split.
  - intros [[t c'] Hx]. apply exec_sound in Hx as (w & t' & c'' & -> & Hm & _).
    eauto.
  - intros (w & t & c' & -> & Hm). eapply exec_complete; eauto.
Qed.

Lemma search_iff icase r s :
  Re.search icase r s = true <->
  exists pre w post c',
    s = pre ++ w ++ post /\ Re.matches icase r Re.no_caps w c'.
Proof.
  induction s as [|ch s IH]; cbn [Re.search].
  - destruct (Re.match_at icase r []) as [x|] eqn:Hm.
    + split; [intros _|done].
      destruct (proj1 (match_at_iff icase r [])) as (w & t & c' & E & Hw); [by rewrite Hm|].
      exists [], w, t, c'. done.
    + split; [done|]. intros (pre & w & post & c' & E & Hw).
      destruct pre; [|done]. cbn in E.
      assert (is_Some (Re.match_at icase r [])) as [? ?]; [|congruence].
      apply match_at_iff. eauto.
  - destruct (Re.match_at icase r (ch :: s)) as [x|] eqn:Hm.
    + split; [intros _|done].
      destruct (proj1 (match_at_iff icase r (ch :: s))) as (w & t & c' & E & Hw); [by rewrite Hm|].
      exists [], w, t, c'. done.
    + rewrite IH. split.
      * intros (pre & w & post & c' & -> & Hw). exists (ch :: pre), w, post, c'. done.
      * intros (pre & w & post & c' & E & Hw). destruct pre as [|p pre].
        -- cbn in E. assert (is_Some (Re.match_at icase r (ch :: s))) as [? ?]; [|congruence].
           apply match_at_iff. eauto.
        -- injection E as -> ->. exists pre, w, post, c'. done.
Qed.

(** ** Reading the patterns of the module *)

Lemma lower_plain (n : char) :
  (n < 65 \/ 90 < n) -> Re.lower n = n.
Proof.
  unfold Re.lower. intros Hn.
  destruct (N.leb_spec 65 n), (N.leb_spec n 90); cbn; lia.
Qed.

Lemma chr_eq_symbol (n ch : char) :
  (n < 65 \/ 90 < n < 97 \/ 122 < n) ->
  Re.chr_eq true n ch = true <-> ch = n.
Proof.
  unfold Re.chr_eq, Re.lower. intros Hn. rewrite N.eqb_eq.
  destruct (N.leb_spec 65 n), (N.leb_spec n 90),
           (N.leb_spec 65 ch), (N.leb_spec ch 90); cbn; lia.
Qed.

Lemma same_refl icase (w : str) : Re.same icase w w.
Proof.
  induction w as [|ch w IH]; constructor; [|done].
  unfold Re.chr_eq. destruct icase; apply N.eqb_refl.
Qed.

Lemma same_symbols (p w : str) :
  Forall (fun n => n < 65 \/ 90 < n < 97 \/ 122 < n) p ->
  Re.same true p w <-> w = p.
Proof.
  intros Hp. split.
  - induction 1 as [|a b p w Hab _ IH]; [done|].
    apply Forall_cons in Hp as [Ha Hp].
    apply chr_eq_symbol in Hab as ->; [|done]. by rewrite IH.
  - intros ->. apply same_refl.
Qed.

Lemma matches_lit icase p c w c' :
  Re.matches icase (Re.lit p) c w c' <-> c' = c /\ Re.same icase p w.
Proof.
  revert w. induction p as [|a p IH]; intros w; cbn.
  - split.
    + inversion 1; subst. split; [done|constructor].
    + intros [-> Hw]. inversion Hw; subst. constructor.
  - split.
    + inversion 1 as [| | | | | |? ? ? ? ? ? ? H1 H2| | | |]; subst.
      inversion H1; subst. apply IH in H2 as [-> Hw].
      split; [done|]. by constructor.
    + intros [-> Hw]. inversion Hw as [|? b ? w' Hab Hw']; subst.
      change (b :: w') with ([b] ++ w').
      econstructor; [by constructor|]. apply IH. done.
Qed.

Lemma matches_alts_lit icase l c w c' :
  l <> [] ->
  Re.matches icase (Re.alts (map Re.lit l)) c w c' <->
  c' = c /\ exists p, p ∈ l /\ Re.same icase p w.
Proof.
  induction l as [|p l IH]; [done|]. intros _.
  destruct l as [|q l].
  - cbn. rewrite matches_lit. split.
    + intros [-> Hw]. split; [done|]. exists p. split; [apply list_elem_of_here|done].
    + intros [-> (p' & Hin & Hw)]. apply list_elem_of_singleton in Hin as ->. done.
  - change (Re.alts (map Re.lit (p :: q :: l)))
      with (Re.Alt (Re.lit p) (Re.alts (map Re.lit (q :: l)))).
    split.
    + inversion 1 as [| | | | | | |? ? ? ? ? Hl|? ? ? ? ? Hr| |]; subst.
      * apply matches_lit in Hl as [-> Hw]. split; [done|].
        exists p. split; [apply list_elem_of_here|done].
      * apply IH in Hr as [-> (p' & Hin & Hw)]; [|done]. split; [done|].
        exists p'. split; [by apply list_elem_of_further|done].
    + intros [-> (p' & Hin & Hw)]. apply elem_of_cons in Hin as [->|Hin].
      * apply Re.M_alt_l. by apply matches_lit.
      * apply Re.M_alt_r. apply IH; [done|]. eauto.
Qed.

Lemma star_not_gt (w : str) :
  forallb (Re.atom_ok true (Re.Cls true [62])) w = true <->
  Forall (fun ch => ch <> 62) w.
Proof.
  rewrite forallb_forall, Forall_forall.
  assert (Hc : forall ch : char,
    Re.atom_ok true (Re.Cls true [62]) ch = true <-> ch <> 62).
  { intros ch. unfold Re.atom_ok. cbn [existsb]. rewrite orb_false_r.
    pose proof (chr_eq_symbol 62 ch) as Hs.
    destruct (Re.chr_eq true 62 ch); cbn [xorb negb].
    - split; [done|]. intros Hne. destruct Hne. apply Hs; [lia|done].
    - split; [|done]. intros _ ->. assert (false = true); [|done].
      apply Hs; [lia|done]. }
  split; intros Hw ch Hin.
  - apply Hc, Hw. by apply list_elem_of_In.
  - apply Hc, Hw. by apply list_elem_of_In.
Qed.

Lemma star_spaces (w : str) :
  forallb (Re.atom_ok true (Re.Lit sp)) w = true <->
  Forall (fun ch => ch = sp) w.
Proof.
  rewrite forallb_forall, Forall_forall.
  split; intros Hw ch Hin.
  - apply (chr_eq_symbol sp ch); [unfold sp; lia|]. apply Hw. by apply list_elem_of_In.
  - apply (chr_eq_symbol sp ch); [unfold sp; lia|]. apply Hw. by apply list_elem_of_In.
Qed.

Lemma star_trail (w : str) :
  forallb (Re.atom_ok true (Re.Cls false (U " ,:"))) w = true <->
  Forall (fun ch => ch ∈ U " ,:") w.
Proof.
  rewrite forallb_forall, Forall_forall.
  assert (Hc : forall ch : char,
    Re.atom_ok true (Re.Cls false (U " ,:")) ch = true <-> ch ∈ U " ,:").
  { intros ch. change (U " ,:") with [32; 44; 58].
    unfold Re.atom_ok. cbn [existsb xorb].
    rewrite orb_false_r, !orb_true_iff.
    rewrite (chr_eq_symbol 32), (chr_eq_symbol 44), (chr_eq_symbol 58) by lia.
    rewrite !elem_of_cons, elem_of_nil. tauto. }
  split; intros Hw ch Hin.
  - apply Hc, Hw. by apply list_elem_of_In.
  - apply Hc, Hw. by apply list_elem_of_In.
Qed.

Lemma seqs_cons r l : Re.seqs (r :: l) = Re.Seq r (Re.seqs l).
Proof. reflexivity. Qed.

Lemma lit_symbol (n ch : char) :
  (n < 65 \/ 90 < n < 97 \/ 122 < n) ->
  Re.atom_ok true (Re.Lit n) ch = true -> ch = n.
Proof. intros Hn Hch. by apply (chr_eq_symbol n ch). Qed.

Ltac inv_matches :=
  repeat match goal with
    | H : Re.matches _ (Re.lit _) _ _ _ |- _ => apply matches_lit in H as [-> H]
    | H : Re.matches _ (Re.seqs []) _ _ _ |- _ => inversion H; subst; clear H
    | H : Re.matches _ Re.Eps _ _ _ |- _ => inversion H; subst; clear H
    | H : Re.matches _ (Re.Seq _ _) _ _ _ |- _ => inversion H; subst; clear H
    | H : Re.matches _ (Re.One _) _ _ _ |- _ => inversion H; subst; clear H
    | H : Re.matches _ (Re.Star _) _ _ _ |- _ => inversion H; subst; clear H
    | H : Re.matches _ (Re.Grp _ _) _ _ _ |- _ => inversion H; subst; clear H
    | H : Re.atom_ok true (Re.Lit _) _ = true |- _ =>
        apply lit_symbol in H; [subst|lia]
    end.

Lemma wrap_iff opening closing mt mh :
  opening <> [] ->
  Re.search true (wrap_re opening mt closing) mh = true <->
  exists pre o otxt attrs spaces body trail ctxt c1 post,
    mh = pre ++ [60] ++ otxt ++ attrs ++ [62] ++ spaces ++ body ++ trail
             ++ U "</" ++ ctxt ++ [62] ++ post
    /\ o ∈ opening /\ ci_eq o otxt
    /\ Forall (fun ch => ch <> 62) attrs
    /\ Forall (fun ch => ch = sp) spaces
    /\ ci_eq mt body
    /\ Forall (fun ch => ch ∈ U " ,:") trail
    /\ Re.matches true closing (Re.set_cap 1 otxt Re.no_caps) ctxt c1.
Proof.
  intros Hop. rewrite search_iff. unfold wrap_re. rewrite !seqs_cons. split.
  - intros (pre & w & post & c' & -> & Hm).
    inv_matches.
    match goal with
    | H : Re.matches _ (Re.alts _) _ _ _ |- _ =>
        apply matches_alts_lit in H as [-> (o & Ho & Hsame)]; [|done]
    end.
    repeat match goal with
    | H : forallb _ _ = true |- _ =>
        first [apply star_not_gt in H | apply star_spaces in H | apply star_trail in H]
    end.
    exists pre, o, w0, w2, w4, w5, w6, w8, c', post.
    split; [|done].
    rewrite <- !app_assoc. reflexivity.
  - intros (pre & o & otxt & attrs & spaces & body & trail & ctxt & c1 & post
            & -> & Ho & Hotxt & Hattrs & Hspaces & Hbody & Htrail & Hclose).
    exists pre,
      ([60] ++ otxt ++ attrs ++ [62] ++ spaces ++ body ++ trail ++ U "</"
         ++ ctxt ++ [62] ++ []), post, c1.
    split; [by rewrite <- !app_assoc|].
    apply star_not_gt in Hattrs. apply star_spaces in Hspaces.
    apply star_trail in Htrail.
    eapply Re.M_seq; [by apply Re.M_one|].
    eapply Re.M_seq.
    { apply Re.M_grp. apply matches_alts_lit; [done|]. eauto. }
    eapply Re.M_seq; [by apply Re.M_star|].
    eapply Re.M_seq; [by apply Re.M_one|].
    eapply Re.M_seq; [by apply Re.M_star|].
    eapply Re.M_seq; [by apply matches_lit|].
    eapply Re.M_seq; [by apply Re.M_star|].
    eapply Re.M_seq; [apply matches_lit; split; [done|apply same_refl]|].
    eapply Re.M_seq; [exact Hclose|].
    eapply Re.M_seq; [by apply Re.M_one|].
    apply Re.M_eps.
Qed.

Lemma same_trans icase (a b c : str) :
  Re.same icase a b -> Re.same icase b c -> Re.same icase a c.
Proof.
  intros Hab. revert c. induction Hab as [|x y a b Hxy _ IH]; intros c Hbc.
  - inversion Hbc. constructor.
  - inversion Hbc as [|? z ? c' Hyz Hbc']; subst. constructor; [|by apply IH].
    unfold Re.chr_eq in *. destruct icase.
    + apply N.eqb_eq in Hxy, Hyz. apply N.eqb_eq. congruence.
    + apply N.eqb_eq in Hxy, Hyz. apply N.eqb_eq. congruence.
Qed.

Lemma matches_grp_inv icase n r c w c' :
  Re.matches icase (Re.Grp n r) c w c' ->
  exists c1, Re.matches icase r c w c1 /\ c' = Re.set_cap n w c1.
Proof. inversion 1; subst. eauto. Qed.

Lemma matches_ref_inv icase n c w c' :
  Re.matches icase (Re.Ref n) c w c' ->
  exists g, c n = Some g /\ Re.same icase g w /\ c' = c.
Proof. inversion 1; subst. eauto. Qed.

Lemma highlight_re_wrap mt :
  PageRequest.highlight_re mt = wrap_re highlight_tags mt (Re.Ref 1).
Proof. reflexivity. Qed.

Lemma quote_re_wrap mt :
  PageRequest.quote_re mt =
  wrap_re PageRequest.OPENING_QUOTES mt
    (Re.Grp 2 (Re.alts (map Re.lit PageRequest.CLOSING_QUOTES))).
Proof. reflexivity. Qed.

(** The highlight pattern is found exactly in the pages where the term is
    wrapped in an emphasis tag. *)
Lemma highlighted_iff mt mh :
  Re.search true (PageRequest.highlight_re mt) mh = true <->
  highlight_wrapped mt mh.
Proof.
  rewrite highlight_re_wrap, wrap_iff by done. unfold highlight_wrapped, wrapped.
  split.
  - intros (pre & o & otxt & attrs & spaces & body & trail & ctxt & c1 & post
            & -> & Ho & Hotxt & Hattrs & Hspaces & Hbody & Htrail & Hclose).
    apply matches_ref_inv in Hclose as (g & Hg & Hsame & _).
    injection Hg as <-.
    exists pre, o, otxt, attrs, spaces, body, trail, o, ctxt, post.
    repeat split; try done. by apply same_trans with otxt.
  - intros (pre & o & otxt & attrs & spaces & body & trail & c & ctxt & post
            & -> & Ho & Hotxt & Hattrs & Hspaces & Hbody & Htrail & _ & _ & Hpair).
    exists pre, o, otxt, attrs, spaces, body, trail, ctxt,
      (Re.set_cap 1 otxt Re.no_caps), post.
    repeat split; try done. by apply Re.M_ref with otxt.
Qed.

(** The quote pattern is found exactly in the pages where the term stands
    between a tag opened with an opening quote and a closing tag made of
    a closing quote. *)
Lemma quotes_iff mt mh :
  Re.search true (PageRequest.quote_re mt) mh = true <->
  quote_wrapped mt mh.
Proof.
  rewrite quote_re_wrap, wrap_iff by done. unfold quote_wrapped, wrapped.
  split.
  - intros (pre & o & otxt & attrs & spaces & body & trail & ctxt & c1 & post
            & -> & Ho & Hotxt & Hattrs & Hspaces & Hbody & Htrail & Hclose).
    apply matches_grp_inv in Hclose as (c2 & Hin & _).
    apply matches_alts_lit in Hin as [_ (c & Hc & Hctxt)]; [|done].
    exists pre, o, otxt, attrs, spaces, body, trail, c, ctxt, post. done.
  - intros (pre & o & otxt & attrs & spaces & body & trail & c & ctxt & post
            & -> & Ho & Hotxt & Hattrs & Hspaces & Hbody & Htrail & Hc & Hctxt & _).
    exists pre, o, otxt, attrs, spaces, body, trail, ctxt,
      (Re.set_cap 2 ctxt (Re.set_cap 1 otxt Re.no_caps)), post.
    repeat split; try done.
    apply Re.M_grp. apply matches_alts_lit; [done|]. eauto.
Qed.

(** ** Sentence extraction *)

Section ExtractFacts.
Context `{Collaborators}.
Import PageRequest.
Variable tm : str.

#[local] Abbreviation state := (list str * (gset str * list Sentence))%type.

Lemma visit_paragraphs_flat (ps : list str) (st : state) :
  foldl (visit_paragraph tm) st ps =
  foldl (visit_sentence tm) st
    (flat_map (fun p => if is_english p then paragraph_to_sentences p tm else []) ps).
Proof.
  revert st. induction ps as [|p ps IH]; intros st; [done|].
  cbn [foldl flat_map]. rewrite foldl_app, IH. unfold visit_paragraph.
  by destruct (is_english p).
Qed.

(** What one turn of the inner loop does, case by case. *)
Lemma visit_sentence_cases (st : state) (x : str) :
  (qualify_sentence x = false /\ visit_sentence tm st x = st)
  \/ (qualify_sentence x = true
      /\ ((found_variants tm x = []) \/ (normalized tm x ∈ map s_clean st.2.2))
      /\ visit_sentence tm st x = (st.1 ++ [x], st.2))
  \/ (qualify_sentence x = true
      /\ found_variants tm x <> []
      /\ (normalized tm x ∉ map s_clean st.2.2)
      /\ visit_sentence tm st x =
           (st.1 ++ [x],
            (list_to_set (found_variants tm x) ∪ st.2.1,
             st.2.2 ++ [ {| s := x; s_clean := normalized tm x |} ]))).
Proof.
  destruct st as [doc [vs ss]]. unfold visit_sentence, found_variants, normalized.
  cbn [fst snd]. destruct (qualify_sentence x); [right|by left].
  destruct (clean_sentence x tm) as [c found]. cbn [fst snd].
  destruct (decide (found = [])) as [->|Hf].
  - left. rewrite bool_decide_eq_true_2 by done. cbn. auto.
  - rewrite (bool_decide_eq_false_2 _ Hf). cbn [negb andb].
    destruct (decide (c ∈ map s_clean ss)) as [Hin|Hin].
    + left. rewrite bool_decide_eq_true_2 by done. cbn. auto.
    + right. rewrite (bool_decide_eq_false_2 _ Hin). cbn. auto.
Qed.

Lemma visited_doc (st : state) (l : list str) :
  (foldl (visit_sentence tm) st l).1 = st.1 ++ List.filter qualify_sentence l.
Proof.
  revert st. induction l as [|x l IH]; intros st; cbn [foldl List.filter].
  - by rewrite app_nil_r.
  - rewrite IH.
    destruct (visit_sentence_cases st x)
      as [[Hq ->]|[(Hq & _ & ->)|(Hq & _ & _ & ->)]]; rewrite Hq; cbn [fst];
      by rewrite <- ?app_assoc.
Qed.

Lemma visited_nodup (st : state) (l : list str) :
  NoDup (map s_clean st.2.2) ->
  NoDup (map s_clean (foldl (visit_sentence tm) st l).2.2).
Proof.
  revert st. induction l as [|x l IH]; intros st Hst; [done|].
  cbn [foldl]. apply IH.
  destruct (visit_sentence_cases st x)
    as [[_ ->]|[(_ & _ & ->)|(_ & _ & Hfresh & ->)]]; [done..|].
  cbn [fst snd]. rewrite map_app. cbn [map s_clean].
  apply NoDup_app. repeat split; [done| |apply NoDup_singleton].
  intros c Hc Hc'. apply list_elem_of_singleton in Hc' as ->. done.
Qed.

Lemma visited_sublist (st : state) (l : list str) :
  sublist (map s (foldl (visit_sentence tm) st l).2.2)
    (map s st.2.2 ++ List.filter qualify_sentence l).
Proof.
  revert st. induction l as [|x l IH]; intros st; cbn [foldl List.filter].
  - by rewrite app_nil_r.
  - etrans; [apply IH|].
    destruct (visit_sentence_cases st x)
      as [[Hq ->]|[(Hq & _ & ->)|(Hq & _ & _ & ->)]]; rewrite Hq; cbn [fst snd].
    + done.
    + apply sublist_app; [done|]. by apply sublist_cons.
    + rewrite map_app, <- app_assoc. done.
Qed.

(** Every retained sentence came with variants. *)
Lemma visited_with_variants (st : state) (l : list str) :
  Forall (fun e => found_variants tm (s e) <> []) st.2.2 ->
  Forall (fun e => found_variants tm (s e) <> [])
    (foldl (visit_sentence tm) st l).2.2.
Proof.
  revert st. induction l as [|x l IH]; intros st Hst; [done|].
  cbn [foldl]. apply IH.
  destruct (visit_sentence_cases st x)
    as [[_ ->]|[(_ & _ & ->)|(_ & Hf & _ & ->)]]; [done..|].
  cbn [fst snd]. apply Forall_app. split; [done|]. by constructor.
Qed.

(** When every sentence brings variants and a normalized form of its
    own, all of them are retained. *)
Lemma visited_all (st : state) (l : list str) :
  Forall (fun x => found_variants tm x <> []) (List.filter qualify_sentence l) ->
  NoDup (map s_clean st.2.2 ++ map (normalized tm) (List.filter qualify_sentence l)) ->
  map s (foldl (visit_sentence tm) st l).2.2 =
  map s st.2.2 ++ List.filter qualify_sentence l.
Proof.
  revert st. induction l as [|x l IH]; intros st Hv Hn; cbn [foldl List.filter] in *.
  - by rewrite app_nil_r.
  - destruct (visit_sentence_cases st x)
      as [[Hq ->]|[(Hq & Hor & ->)|(Hq & _ & _ & ->)]]; rewrite Hq in *.
    + by apply IH.
    + exfalso. apply Forall_cons in Hv as [Hx _].
      destruct Hor as [Hnone|Hin]; [done|].
      cbn [map] in Hn. apply NoDup_app in Hn as (_ & Hdis & _).
      apply (Hdis _ Hin). apply list_elem_of_here.
    + apply Forall_cons in Hv as [_ Hv]. rewrite IH; cbn [fst snd].
      * by rewrite map_app, <- app_assoc.
      * done.
      * rewrite map_app, <- app_assoc. done.
Qed.

Lemma extract_sentences_visited (self : obj) (page_text : str) :
  term self = tm ->
  let st := foldl (visit_sentence tm) ([], (variants self, sentences self))
              (candidates tm page_text) in
  extract_sentences self page_text =
  (set_found st.2.1 st.2.2 self, join [sp] st.1).
Proof.
  intros Htm. unfold extract_sentences, candidates. rewrite Htm.
  rewrite visit_paragraphs_flat.
  by destruct (foldl _ _ _) as [doc [vs ss]].
Qed.
End ExtractFacts.

(** ** The direct fetch, end to end *)

Section RequestFacts.
Context `{Collaborators}.
Import PageRequest.
Variable config : Config.
Variable world : World.

Lemma get_html_features_frame (self : obj) (page_html : str) :
  let o := get_html_features self page_html in
  url o = url self /\ term o = term self /\ variants o = variants self
  /\ sentences o = sentences self /\ text o = text self /\ html o = html self
  /\ author o = author self /\ title o = title self
  /\ response o = response self.
Proof. unfold get_html_features. by destruct (str_eqb (term self) []). Qed.

Lemma get_meta_frame (self : obj) (page_html : str) :
  let o := get_meta self page_html in
  url o = url self /\ term o = term self /\ variants o = variants self
  /\ sentences o = sentences self /\ text o = text self /\ html o = html self
  /\ features o = features self /\ response o = response self.
Proof. done. Qed.

(** What [parse_response] leaves in a request that had found nothing
    yet. *)
Lemma parse_response_found (self : obj) (r : Response) (t : trace) :
  variants self = ∅ -> sentences self = [] ->
  let page_html := default [] (resp_text r) in
  let st := visited (term self) (candidates (term self) (raw_text page_html)) in
  let o := (parse_response self r t).1 in
  url o = url self /\ term o = term self /\ html o = JStr page_html
  /\ text o = JStr (join [sp] st.1)
  /\ variants o = st.2.1 /\ sentences o = st.2.2
  /\ response o = response self.
Proof.
  intros Hv Hs page_html st o. subst o. unfold parse_response.
  fold page_html.
  assert (Hraw :
    exists t', (match html2text_handle page_html with
                | Some raw => (raw, t)
                | None =>
                    (fallback_text page_html,
                     t ++ [LogInfo (U "Falling back on BeautifulSoup for '"
                                      ++ url (set_html (JStr page_html) self) ++ U "'")])
                end) = (raw_text page_html, t')).
  { unfold raw_text. destruct (html2text_handle page_html); eauto. }
  destruct Hraw as [t' ->].
  rewrite (extract_sentences_visited (term self)) by done.
  cbn [variants sentences set_html]. rewrite Hv, Hs.
  change (foldl (visit_sentence (term self)) ([], (∅, []))
            (candidates (term self) (raw_text page_html))) with st.
  cbn [fst].
  match goal with
  | |- context [get_meta ?x ?y] =>
      destruct (get_meta_frame x y) as (-> & -> & -> & -> & -> & -> & _ & ->)
  end.
  match goal with
  | |- context [get_html_features ?x ?y] =>
      destruct (get_html_features_frame x y)
        as (-> & -> & -> & -> & -> & -> & _ & _ & ->)
  end.
  done.
Qed.

(** A run that ends with a response has parsed that response. *)
Lemma init_parsed fuel url0 tm (o : obj) (t : trace) (r : Response) :
  init config world fuel url0 tm = Done (o, t) ->
  response o = Some (Http r) ->
  exists t0,
    request_page config world fuel (new url0 tm) [] = Done (Some r, t0)
    /\ (o, t) = parse_response (set_response (Some (Http r)) (new url0 tm)) r t0.
Proof.
  unfold init. destruct (request_page config world fuel (new url0 tm) [])
    as [[[r'|] t0]|e|]; cbn; [| |done..].
  - intros [= Ho] Hr.
    pose proof (parse_response_found
                  (set_response (Some (Http r')) (new url0 tm)) r' t0 eq_refl eq_refl)
      as (_ & _ & _ & _ & _ & _ & Hresp).
    rewrite Ho in Hresp. cbn in Hresp. rewrite Hresp in Hr.
    injection Hr as ->. exists t0. rewrite Ho. done.
  - intros [= <- <-]. done.
Qed.
End RequestFacts.

(** ** Claims on the sentence list and the doc string *)

Section SentenceClaims.
Context `{Collaborators}.
Import PageRequest.

(** C6. At every point of the loop of [extract_sentences] on a fresh
    request (after any sequence [l] of candidate sentences), the retained
    sentences have pairwise different [s_clean] values; and the next
    sentence [x] either leaves the sentence list and the variant set as
    they are, or its normalized form is that of no retained sentence, it
    is appended and its variants are merged. The sentences of a request
    that has run have pairwise different [s_clean] values. *)
Theorem C6_retained_normalized_forms_distinct
    (config : Config) (world : World) (fuel : nat) (url0 tm : str)
    (l : list str) (x : str) :
  let st := visited tm l in
  let st' := visit_sentence tm st x in
  NoDup (map s_clean st.2.2)
  /\ (st'.2 = st.2
      \/ ((normalized tm x ∉ map s_clean st.2.2)
          /\ st'.2 = (list_to_set (found_variants tm x) ∪ st.2.1,
                      st.2.2 ++ [ {| s := x; s_clean := normalized tm x |} ])))
  /\ match init config world fuel url0 tm with
     | Done (o, _) => NoDup (map s_clean (sentences o))
     | _ => True
     end.
Proof.
  intros st st'. split; [|split].
  - apply visited_nodup. constructor.
  - subst st'. destruct (visit_sentence_cases tm st x)
      as [[_ ->]|[(_ & _ & ->)|(_ & _ & Hfresh & ->)]]; auto.
  - destruct (init config world fuel url0 tm) as [[o t]| |] eqn:Hrun; [|done..].
    destruct (response o) as [[r|j]|] eqn:Hresp.
    + destruct (init_parsed config world fuel url0 tm o t r Hrun Hresp)
        as (t0 & _ & Ho).
      pose proof (parse_response_found
                    (set_response (Some (Http r)) (new url0 tm)) r t0
                    eq_refl eq_refl) as (_ & _ & _ & _ & _ & Hs & _).
      rewrite <- Ho in Hs. cbn [fst] in Hs. rewrite Hs.
      apply visited_nodup. constructor.
    + exfalso. revert Hrun. unfold init.
      destruct (request_page config world fuel (new url0 tm) [])
        as [[[r'|] t0]|e|]; cbn; [| |done..].
      * intros [= Ho].
        pose proof (parse_response_found
                      (set_response (Some (Http r')) (new url0 tm)) r' t0
                      eq_refl eq_refl) as (_ & _ & _ & _ & _ & _ & Hr).
        rewrite Ho in Hr. cbn in Hr. congruence.
      * intros [= <- <-]. done.
    + revert Hrun. unfold init.
      destruct (request_page config world fuel (new url0 tm) [])
        as [[[r'|] t0]|e|]; cbn; [| |done..].
      * intros [= Ho].
        pose proof (parse_response_found
                      (set_response (Some (Http r')) (new url0 tm)) r' t0
                      eq_refl eq_refl) as (_ & _ & _ & _ & _ & _ & Hr).
        rewrite Ho in Hr. cbn in Hr. congruence.
      * intros [= <- <-]. cbn. constructor.
Qed.

(** C10. A qualified sentence for which the cleaner finds no variant
    goes to the doc list and nowhere else: the turn of the loop leaves
    the variant set and the sentence list as they are. Over a whole
    call on a fresh request, such a candidate is not among the retained
    sentences, the returned doc string is the join of a list that holds
    it, and every retained sentence came with variants. *)
Theorem C10_sentence_without_variants
    (self : obj) (page_text : str) (l : list str) (x : str) :
  qualify_sentence x = true ->
  found_variants (term self) x = [] ->
  variants self = ∅ -> sentences self = [] ->
  x ∈ candidates (term self) page_text ->
  let st := visited (term self) l in
  let result := extract_sentences self page_text in
  visit_sentence (term self) st x = (st.1 ++ [x], st.2)
  /\ (x ∉ map s (sentences result.1))
  /\ (exists before after, result.2 = join [sp] (before ++ x :: after))
  /\ Forall (fun e => found_variants (term self) (s e) <> []) (sentences result.1).
Proof.
  intros Hq Hnone Hv Hs Hx st result.
  assert (Hkept : Forall (fun e => found_variants (term self) (s e) <> [])
                    (sentences result.1)).
  { subst result. rewrite (extract_sentences_visited (term self)) by done.
    cbn [fst sentences set_found]. apply visited_with_variants.
    rewrite Hs. constructor. }
  split; [|split; [|split]].
  - destruct (visit_sentence_cases (term self) st x)
      as [[Hq' _]|[(_ & _ & ->)|(_ & Hsome & _)]]; [congruence|done|done].
  - intros Hin. apply list_elem_of_fmap in Hin as (e & -> & He).
    rewrite Forall_forall in Hkept. by apply (Hkept e).
  - subst result. rewrite (extract_sentences_visited (term self)) by done.
    cbn [snd]. rewrite visited_doc. cbn [fst app].
    assert (Hin : x ∈ List.filter qualify_sentence (candidates (term self) page_text)).
    { apply list_elem_of_In, filter_In. split; [by apply list_elem_of_In|done]. }
    apply list_elem_of_split in Hin as (before & after & ->). eauto.
  - done.
Qed.

(** C1, as the code has it. After a successful direct fetch the doc of
    the record is the join, with single spaces, of every qualified
    candidate sentence of the page text, in the order met; the retained
    sentences are a subsequence of those; the two lists are the same
    when every qualified sentence comes with variants and no two of them
    have the same normalized form. *)
Theorem C1_doc_joins_every_qualified_sentence
    (config : Config) (world : World) (fuel : nat) (url0 tm : str)
    (o : obj) (t : trace) (r : Response) :
  init config world fuel url0 tm = Done (o, t) ->
  response o = Some (Http r) ->
  let record := structured config o in
  let every := qualified tm (raw_text (default [] (resp_text r))) in
  r_doc record = JStr (join [sp] every)
  /\ sublist (map s (r_sentences record)) every
  /\ (Forall (fun x => found_variants tm x <> []) every ->
      NoDup (map (normalized tm) every) ->
      map s (r_sentences record) = every).
Proof.
  intros Hrun Hresp record every.
  destruct (init_parsed config world fuel url0 tm o t r Hrun Hresp)
    as (t0 & _ & Ho).
  pose proof (parse_response_found
                (set_response (Some (Http r)) (new url0 tm)) r t0
                eq_refl eq_refl) as (_ & _ & _ & Htext & _ & Hs & _).
  rewrite <- Ho in Htext, Hs. cbn [fst term new set_response] in Htext, Hs.
  subst record. cbn [r_doc r_sentences structured]. rewrite Htext, Hs.
  unfold visited. split; [|split].
  - by rewrite visited_doc.
  - apply (visited_sublist tm ([], (∅, []))).
  - intros Hv Hn. by rewrite (visited_all tm ([], (∅, []))).
Qed.
End SentenceClaims.

(** The doc of a page that says one sentence twice has it twice, the
    sentence list once. *)
Lemma C1_counterexample :
  exists o t r,
    @PageRequest.init Sample.collaborators Sample.config
      (Sample.serve Sample.twice) 1 Sample.address (U "term") = Done (o, t)
    /\ PageRequest.response o = Some (PageRequest.Http r)
    /\ PageRequest.r_doc (@PageRequest.structured Sample.collaborators Sample.config o)
       <> JStr (join [sp]
                  (map PageRequest.s
                     (PageRequest.r_sentences
                        (@PageRequest.structured Sample.collaborators Sample.config o)))).
Proof.
  eexists _, _, _. split; [reflexivity|]. split; [reflexivity|].
  vm_compute. discriminate.
Qed.

Lemma C1_witness :
  PageRequest.r_doc
    (@PageRequest.structured Sample.collaborators Sample.config
       (@PageRequest.parse_response Sample.collaborators
          (PageRequest.set_response
             (Some (PageRequest.Http {| resp_ok := true; resp_text := Some Sample.twice |}))
             (PageRequest.new Sample.address (U "term")))
          {| resp_ok := true; resp_text := Some Sample.twice |}
          [Get Sample.address]).1)
  = JStr (U "A term here. A term here.").
Proof.
  exact (proj1 (@C1_doc_joins_every_qualified_sentence Sample.collaborators
                  Sample.config (Sample.serve Sample.twice) 1 Sample.address
                  (U "term") _ _ _ eq_refl eq_refl)).
Defined.

Lemma C10_witness :
  let self := PageRequest.new Sample.address (U "term") in
  let result := @PageRequest.extract_sentences Sample.collaborators self Sample.capital in
  (Sample.capital ∉ map PageRequest.s (PageRequest.sentences result.1))
  /\ exists before after, result.2 = join [sp] (before ++ Sample.capital :: after).
Proof.
  destruct (@C10_sentence_without_variants Sample.collaborators
              (PageRequest.new Sample.address (U "term")) Sample.capital []
              Sample.capital eq_refl eq_refl eq_refl eq_refl)
    as (_ & Hout & Hdoc & _).
  - vm_compute. apply list_elem_of_here.
  - split; [exact Hout|exact Hdoc].
Defined.

(** ** The retry loop *)

Section RetryClaims.
Context `{Collaborators}.
Import PageRequest.
Variable config : Config.
Variable world : World.

Lemma count_app p (t u : trace) : count p (t ++ u) = (count p t + count p u)%nat.
Proof. unfold count. by rewrite List.filter_app, length_app. Qed.

Lemma sleep_returns (seconds : Z) (t : trace) :
  (0 <= seconds)%Z -> sleep seconds t = Done (t ++ [Sleep seconds]).
Proof. intros Hs. unfold sleep. by destruct (Z.ltb_spec seconds 0); [lia|]. Qed.

(** With a delay that is not negative, a refused attempt costs one turn
    of the loop, one GET and one sleep. *)
Lemma request_loop_turn (fuel : nat) (self : obj) (attempts : Z) (t : trace) :
  attempts <> 0%Z ->
  (0 <= request_seconds_before_retry config)%Z ->
  failed (http world (url self) (count is_get t)) = true ->
  request_loop config world (S fuel) self attempts t =
  request_loop config world fuel self (attempts - 1)
    ((t ++ [Get (url self)]) ++ [Sleep (request_seconds_before_retry config)]).
Proof.
  intros Ha Hd H0. cbn [request_loop].
  destruct (Z.eqb_spec attempts 0) as [E|_]; [done|].
  rewrite sleep_returns by done. cbn [mbind outcome_bind].
  unfold failed in H0.
  destruct (http world (url self) (count is_get t)) as [r|]; [|done].
  apply negb_true_iff in H0. by rewrite H0.
Qed.

(** With a negative delay, the first refused attempt ends the loop by
    the exception of [time.sleep]. *)
Lemma request_loop_sleep_raises (fuel : nat) (self : obj) (attempts : Z) (t : trace) :
  attempts <> 0%Z ->
  (request_seconds_before_retry config < 0)%Z ->
  failed (http world (url self) (count is_get t)) = true ->
  request_loop config world (S fuel) self attempts t = Raised IOError.
Proof.
  intros Ha Hd H0. cbn [request_loop].
  destruct (Z.eqb_spec attempts 0) as [E|_]; [done|].
  unfold sleep. destruct (Z.ltb_spec (request_seconds_before_retry config) 0); [|lia].
  cbn [mbind outcome_bind]. unfold failed in H0.
  destruct (http world (url self) (count is_get t)) as [r|]; [|done].
  apply negb_true_iff in H0. by rewrite H0.
Qed.

(** [n] failing attempts in a row use [n] turns of the loop. *)
Lemma request_loop_exhausted (n : nat) :
  (0 <= request_seconds_before_retry config)%Z ->
  forall (fuel : nat) (self : obj) (t : trace),
    (n <= fuel)%nat ->
    (forall i, (i < n)%nat ->
       failed (http world (url self) (count is_get t + i)) = true) ->
    exists t',
      request_loop config world fuel self (Z.of_nat n) t = Done (None, t')
      /\ count is_get t' = (count is_get t + n)%nat
      /\ count is_error t' = S (count is_error t)
      /\ count is_info t' = count is_info t.
Proof.
  intros Hd. induction n as [|n IH]; intros fuel self t Hfuel Hfail.
  - exists (t ++ [LogError (U "Failed to return page for url: " ++ url self)]).
    split; [by destruct fuel|]. rewrite !count_app. cbn. lia.
  - destruct fuel as [|fuel]; [lia|].
    pose proof (Hfail 0%nat ltac:(lia)) as H0. rewrite Nat.add_0_r in H0.
    rewrite request_loop_turn by (done || lia).
    replace (Z.of_nat (S n) - 1)%Z with (Z.of_nat n) by lia.
    destruct (IH fuel self
                ((t ++ [Get (url self)]) ++ [Sleep (request_seconds_before_retry config)]))
      as (t' & -> & Hg & He & Hi).
    + lia.
    + intros i Hi. rewrite !count_app. cbn.
      replace (count is_get t + 1 + 0 + i)%nat with (count is_get t + S i)%nat by lia.
      apply Hfail. lia.
    + exists t'. split; [done|]. rewrite !count_app in Hg, He, Hi. cbn in Hg, He, Hi.
      lia.
Qed.

(** With a negative [request_retry] and no attempt accepted the loop
    does not end: whatever the fuel, it is still running. *)
Lemma request_loop_negative (fuel : nat) :
  (0 <= request_seconds_before_retry config)%Z ->
  forall (self : obj) (attempts : Z) (t : trace),
    (attempts < 0)%Z ->
    (forall i, failed (http world (url self) i) = true) ->
    request_loop config world fuel self attempts t = Running.
Proof.
  intros Hd.
  induction fuel as [|fuel IH]; intros self attempts t Hneg Hfail.
  - cbn [request_loop]. destruct (Z.eqb_spec attempts 0); [lia|done].
  - rewrite request_loop_turn by (done || lia). apply IH; [lia|done].
Qed.

(** C2. With a number of attempts and a delay that are not negative:
    when each of the [request_retry] attempts fails, a run with enough
    fuel for them ends without an exception: it has made exactly
    [request_retry] GETs, logged exactly one error, and the request has
    no response and nothing parsed. *)
Theorem C2_exhausted_fetch_is_absent (fuel : nat) (url0 tm : str) :
  (0 <= request_retry config)%Z ->
  (0 <= request_seconds_before_retry config)%Z ->
  (Z.to_nat (request_retry config) <= fuel)%nat ->
  (forall i, (i < Z.to_nat (request_retry config))%nat ->
     failed (http world url0 i) = true) ->
  exists t,
    request_page config world fuel (new url0 tm) [] = Done (None, t)
    /\ init config world fuel url0 tm = Done (set_response None (new url0 tm), t)
    /\ count is_get t = Z.to_nat (request_retry config)
    /\ count is_error t = 1%nat.
Proof.
  intros Hpos Hd Hfuel Hfail.
  destruct (request_loop_exhausted (Z.to_nat (request_retry config)) Hd fuel
              (new url0 tm) [] Hfuel) as (t & Hrun & Hg & He & _).
  { intros i Hi. cbn. by apply Hfail. }
  rewrite Z2Nat.id in Hrun by done.
  exists t. unfold init, request_page. rewrite Hrun. cbn in *. done.
Qed.
End RetryClaims.

Lemma C2_witness :
  exists t,
    @PageRequest.init Sample.collaborators Sample.config
      (Sample.down ApiTransportError) 3 Sample.address (U "term")
    = Done (PageRequest.set_response None (PageRequest.new Sample.address (U "term")), t)
    /\ count is_get t = 3%nat /\ count is_error t = 1%nat.
Proof.
  destruct (@C2_exhausted_fetch_is_absent Sample.collaborators Sample.config
              (Sample.down ApiTransportError) 3 Sample.address (U "term"))
    as (t & _ & Hrun & Hg & He).
  - vm_compute. discriminate.
  - vm_compute. discriminate.
  - vm_compute. lia.
  - reflexivity.
  - exists t. split; [exact Hrun|]. split; [exact Hg|exact He].
Defined.

(** ** The article API *)

Section ArticleApiClaims.
Context `{Collaborators}.
Import PageRequest.
Variable config : Config.
Variable world : World.

(** The [try] block ends well exactly on a decoded body that is a dict
    with a true value under [objects]. *)
Lemma checked_response_Done (self : obj) (j : json) :
  DiffbotRequest.checked_response config world self = Done j <->
  api world (credentials_diffbot config) (url self) = ApiDecoded j
  /\ valid_body j = true.
Proof.
  unfold DiffbotRequest.checked_response.
  destruct (api world (credentials_diffbot config) (url self)) as [| |j'];
    [split; [done|by intros [? _]]..|].
  assert (Hj : (exists e,
             (b ← py_in (U "objects") j'; _ ← py_assert b;
              v ← getitem j' (U "objects"); _ ← py_assert (truthy v);
              mret j') = @Raised json e) /\ valid_body j' = false
          \/ (b ← py_in (U "objects") j'; _ ← py_assert b;
              v ← getitem j' (U "objects"); _ ← py_assert (truthy v);
              mret j') = Done j' /\ valid_body j' = true).
  { destruct j' as [|b|z|s0|l|l]; cbn.
    - left. eauto.
    - left. eauto.
    - left. eauto.
    - left. destruct (has_sub _ s0); cbn; eauto.
    - left. destruct (existsb _ l); cbn; eauto.
    - destruct (assoc _ l) as [v|]; cbn; [|left; eauto].
      destruct (truthy v); cbn; [right|left]; eauto. }
  destruct Hj as [[[e ->] Hv]|[-> Hv]].
  - split; [done|]. intros [[= <-] Hv']. congruence.
  - split.
    + intros [= <-]. done.
    + intros [[= <-] _]. done.
Qed.

(** C3. A transport error, a decode error, or a decoded body that is
    not a dict with a non-empty [objects] (in particular one without
    the key, or with the empty list) ends the request without an
    exception, with no response, nothing parsed and one error logged.
    On a body whose first object is a dict with a string under [html],
    the request takes [text], [html], [author] and [title] from that
    object as they are, and computes sentences, variants and features
    from its [html]. *)
Theorem C3_article_api (url0 tm : str) :
  (forall l, assoc (U "objects") l = None -> valid_body (JObj l) = false)
  /\ (forall l, assoc (U "objects") l = Some (JArr []) -> valid_body (JObj l) = false)
  /\ (match api world (credentials_diffbot config) url0 with
      | ApiDecoded j => valid_body j = false
      | _ => True
      end ->
      DiffbotRequest.init config world url0 tm =
      Done (set_response None (new url0 tm),
            [ApiGet url0;
             LogError (U "Failed to return page for url: " ++ url0)]))
  /\ (forall l first rest page_html,
        api world (credentials_diffbot config) url0 = ApiDecoded (JObj l) ->
        assoc (U "objects") l = Some (JArr (JObj first :: rest)) ->
        assoc (U "html") first = Some (JStr page_html) ->
        exists o,
          DiffbotRequest.init config world url0 tm = Done (o, [ApiGet url0])
          /\ text o = default JNull (assoc (U "text") first)
          /\ html o = JStr page_html
          /\ author o = default JNull (assoc (U "author") first)
          /\ title o = default JNull (assoc (U "title") first)
          /\ (variants o, sentences o) = (visited tm (candidates tm page_html)).2
          /\ features o =
             if str_eqb tm [] then None
             else Some
                    {| highlighted :=
                         Re.search true (highlight_re (squashed tm []))
                           (squashed page_html (U "<>/&;"));
                       quotes :=
                         Re.search true (quote_re (squashed tm []))
                           (squashed page_html (U "<>/&;")) |}).
Proof.
  split; [|split; [|split]].
  - intros l Hl. unfold valid_body. by rewrite Hl.
  - intros l Hl. unfold valid_body. by rewrite Hl.
  - intros Hbad. unfold DiffbotRequest.init, DiffbotRequest.request_page.
    destruct (DiffbotRequest.checked_response config world (new url0 tm))
      as [j|e|] eqn:Hc; [|done..].
    apply checked_response_Done in Hc as [Hapi Hv]. cbn in Hapi.
    rewrite Hapi in Hbad. congruence.
  - intros l first rest page_html Hapi Hobjects Hhtml.
    assert (Hc : DiffbotRequest.checked_response config world (new url0 tm)
                 = Done (JObj l)).
    { apply checked_response_Done. split; [done|].
      unfold valid_body. by rewrite Hobjects. }
    unfold DiffbotRequest.init, DiffbotRequest.request_page. rewrite Hc.
    assert (Ht : truthy (JObj l) = true).
    { destruct l; [done|done]. }
    rewrite Ht. unfold DiffbotRequest.parse_response.
    cbn [getitem]. rewrite Hobjects. cbn [mbind outcome_bind getitem0 py_get].
    rewrite Hhtml. cbn [default mbind outcome_bind mret outcome_ret].
    cbv [id]. rewrite (extract_sentences_visited tm) by done. cbn [fst].
    cbn [mbind outcome_bind mret outcome_ret app url new].
    eexists. split; [reflexivity|].
    match goal with
    | |- context [get_html_features ?x ?y] =>
        destruct (get_html_features_frame x y)
          as (_ & _ & -> & -> & -> & -> & -> & -> & _)
    end.
    repeat split; try reflexivity.
    + unfold visited.
      cbn [variants sentences set_found set_title set_author set_html
             set_text set_response new].
      by destruct (foldl _ _ _) as [doc [vs ss]].
    + unfold get_html_features.
      cbn [term set_found set_title set_author set_html set_text
             set_response new].
      by destruct (str_eqb tm []).
Qed.
End ArticleApiClaims.

Lemma C3_witness :
  (@DiffbotRequest.init Sample.collaborators Sample.config
     (Sample.down (ApiDecoded (JObj [(U "objects", JArr [])])))
     Sample.address (U "term")
   = Done (PageRequest.set_response None (PageRequest.new Sample.address (U "term")),
           [ApiGet Sample.address;
            LogError (U "Failed to return page for url: " ++ Sample.address)]))
  /\ exists o,
       @DiffbotRequest.init Sample.collaborators Sample.config
         (Sample.down (ApiDecoded Sample.article)) Sample.address (U "term")
       = Done (o, [ApiGet Sample.address])
       /\ PageRequest.author o = JStr (U "Jane Doe")
       /\ PageRequest.text o = JStr (U "A term here.")
       /\ PageRequest.features o
          = Some {| PageRequest.highlighted := true; PageRequest.quotes := false |}.
Proof.
  split.
  - apply (proj1 (proj2 (proj2 (@C3_article_api Sample.collaborators Sample.config
              (Sample.down (ApiDecoded (JObj [(U "objects", JArr [])])))
              Sample.address (U "term"))))).
    reflexivity.
  - destruct (proj2 (proj2 (proj2 (@C3_article_api Sample.collaborators Sample.config
              (Sample.down (ApiDecoded Sample.article)) Sample.address (U "term"))))
              _ _ _ _ eq_refl eq_refl eq_refl)
      as (o & Hrun & Htext & _ & Hauthor & _ & _ & Hfeat).
    exists o. split; [exact Hrun|]. split; [exact Hauthor|]. split; [exact Htext|].
    rewrite Hfeat. vm_compute. reflexivity.
Defined.

(** ** Metadata *)

Section MetaClaims.
Context `{Collaborators}.
Import PageRequest.

(** The dict literal of [get_meta] has the key [property] twice: the
    entry for [og:author] is gone before the loop starts. *)
Lemma prop_names_entries :
  prop_names = [ (U "name", U "author"); (U "property", U "article:author") ].
Proof. reflexivity. Qed.

Lemma get_meta_author (self : obj) (page_html : str) :
  author (get_meta self page_html) =
  match List.filter reasonable
          (flat_map (authors_of page_html) (dict_items prop_names)) with
  | a :: _ => JStr a
  | [] => JNull
  end.
Proof. reflexivity. Qed.

(** With at most one candidate in all, the order of the dict does not
    matter. *)
Lemma authors_any_order (page_html : str) (found : list str) :
  flat_map (authors_of page_html) prop_names = found ->
  (length found <= 1)%nat ->
  flat_map (authors_of page_html) (dict_items prop_names) = found.
Proof.
  intros Hfound Hlen.
  pose proof (Permutation_flat_map (authors_of page_html)
                (dict_items_perm prop_names)) as Hperm.
  rewrite Hfound in Hperm.
  destruct found as [|a [|b found]]; [| |cbn in Hlen; lia].
  - by apply Permutation_nil_r.
  - by apply Permutation_singleton_r.
Qed.

(** C4, on the code. A page that names its author the OpenGraph way has
    no author for [get_meta], while the same tag with [article:author]
    has one; so has the W3C tag closed with a space, a slash and [>],
    but not the one closed with [>] right after the value. *)
Theorem C4_og_author_is_not_scanned (self : obj) :
  prop_names = [ (U "name", U "author"); (U "property", U "article:author") ]
  /\ author (get_meta self Sample.og_page) = JNull
  /\ author (get_meta self Sample.article_page) = JStr (U "Jane Doe")
  /\ author (get_meta self Sample.plain_page) = JNull
  /\ author (get_meta self Sample.slash_page) = JStr (U "Jane Doe").
Proof.
  split; [reflexivity|]. rewrite !get_meta_author.
  rewrite (authors_any_order Sample.og_page []) by (vm_compute; done || lia).
  rewrite (authors_any_order Sample.article_page [U "Jane Doe"])
    by (vm_compute; done || lia).
  rewrite (authors_any_order Sample.plain_page []) by (vm_compute; done || lia).
  rewrite (authors_any_order Sample.slash_page [U "Jane Doe"])
    by (vm_compute; done || lia).
  repeat split; reflexivity.
Qed.
End MetaClaims.

(** ** The fallback conversion *)

Lemma star_newlines (s : str) (c : Re.caps) :
  Re.star_loop false (Re.Lit nl) s (fun u => Some (u, c)) = Some (skip_newlines s, c).
Proof.
  induction s as [|ch s IH]; cbn [Re.star_loop skip_newlines]; [done|].
  unfold Re.atom_ok, Re.chr_eq. destruct (nl =? ch); [|done]. by rewrite IH.
Qed.

Lemma match_newlines (s : str) :
  Re.match_at false (Re.Plus (Re.Lit nl)) s =
  match s with
  | ch :: t => if nl =? ch then Some (skip_newlines t, Re.no_caps) else None
  | [] => None
  end.
Proof.
  unfold Re.match_at. cbn [Re.exec]. destruct s as [|ch t]; cbn [Re.one_step]; [done|].
  unfold Re.atom_ok, Re.chr_eq. destruct (nl =? ch); [|done]. apply star_newlines.
Qed.

Lemma skip_newlines_length (s : str) : (length (skip_newlines s) <= length s)%nat.
Proof.
  induction s as [|ch s IH]; cbn [skip_newlines length]; [lia|].
  destruct (nl =? ch); cbn [length]; lia.
Qed.

Lemma double_skip (s : str) :
  double_newline_runs true s = double_newline_runs false (skip_newlines s).
Proof.
  induction s as [|ch s IH]; cbn [skip_newlines double_newline_runs]; [done|].
  rewrite (N.eqb_sym ch nl). destruct (nl =? ch) eqn:E; [done|].
  cbn [double_newline_runs]. by rewrite (N.eqb_sym ch nl), E.
Qed.

(** [re.sub] with the pattern for one or more newlines and two newlines
    to put in their place. *)
Lemma sub_newlines (s : str) :
  Re.sub false (Re.Plus (Re.Lit nl)) [nl; nl] s = double_newline_runs false s.
Proof.
  unfold Re.sub. generalize (Nat.lt_succ_diag_r (length s)).
  generalize (S (length s)) as fuel. intros fuel. revert s.
  induction fuel as [|fuel IH]; intros s Hlen; [lia|].
  cbn [Re.sub_fuel]. rewrite match_newlines.
  destruct s as [|ch s]; [done|]. cbn [double_newline_runs].
  rewrite (N.eqb_sym ch nl). destruct (nl =? ch) eqn:E.
  - pose proof (skip_newlines_length s) as Hskip. cbn [length] in *.
    destruct (Nat.ltb_spec (length (skip_newlines s)) (S (length s))); [|lia].
    rewrite IH by lia. by rewrite double_skip.
  - rewrite IH by (cbn [length] in Hlen; lia). done.
Qed.

Section FallbackClaims.
Context `{Collaborators}.
Import PageRequest.
Variable config : Config.
Variable world : World.

(** A fetch that ends with a response has logged nothing. *)
Lemma request_loop_quiet (fuel : nat) :
  forall (self : obj) (attempts : Z) (t t' : trace) (r : Response),
    request_loop config world fuel self attempts t = Done (Some r, t') ->
    count is_error t' = count is_error t /\ count is_info t' = count is_info t.
Proof.
  induction fuel as [|fuel IH]; intros self attempts t t' r; cbn [request_loop].
  - by destruct (attempts =? 0)%Z.
  - destruct (attempts =? 0)%Z; [done|]. unfold sleep.
    destruct (http world (url self) (count is_get t)) as [r0|].
    + destruct (resp_ok r0 && bool_decide (is_Some (resp_text r0))).
      * intros [= <- <-]. rewrite !count_app. cbn. lia.
      * destruct (request_seconds_before_retry config <? 0)%Z; cbn [mbind outcome_bind]; [done|].
        intros Hrun. apply IH in Hrun. rewrite !count_app in Hrun. cbn in Hrun. lia.
    + destruct (request_seconds_before_retry config <? 0)%Z; cbn [mbind outcome_bind]; [done|].
      intros Hrun. apply IH in Hrun. rewrite !count_app in Hrun. cbn in Hrun. lia.
Qed.

(** C5, as the code has it. When html2text raises on the page of a
    successful fetch, the run logs one informational note and no
    error, and the sentences are taken from the text of the parsed page
    without its [head] and [script] elements and the elements of class
    or id [comments], in which every run of one or more newlines has
    become exactly two newlines. *)
Theorem C5_fallback_doubles_every_newline_run
    (fuel : nat) (url0 tm : str) (o : obj) (t : trace) (r : Response) :
  init config world fuel url0 tm = Done (o, t) ->
  response o = Some (Http r) ->
  html2text_handle (default [] (resp_text r)) = None ->
  let page_html := default [] (resp_text r) in
  let sp0 := BeautifulSoup page_html in
  let removed := find_names [U "head"; U "script"] sp0
                 ++ find_class (U "comments") sp0
                 ++ find_id (U "comments") sp0 in
  let fallback :=
    double_newline_runs false
      (get_text (foldl (fun acc el => extract el acc) sp0 removed)) in
  raw_text page_html = fallback
  /\ text o = JStr (join [sp] (qualified tm fallback))
  /\ (variants o, sentences o) = (visited tm (candidates tm fallback)).2
  /\ count is_error t = 0%nat
  /\ count is_info t = 1%nat.
Proof.
  intros Hrun Hresp Hraise page_html sp0 removed fallback.
  pose proof Hraise as Hraise'.
  assert (Hraw : raw_text page_html = fallback).
  { unfold raw_text. fold page_html in Hraise. rewrite Hraise.
    unfold fallback_text. apply sub_newlines. }
  destruct (init_parsed config world fuel url0 tm o t r Hrun Hresp)
    as (t0 & Hreq & Ho).
  pose proof (parse_response_found
                (set_response (Some (Http r)) (new url0 tm)) r t0
                eq_refl eq_refl) as (_ & _ & _ & Htext & Hv & Hs & _).
  rewrite <- Ho in Htext, Hv, Hs. cbn [fst term new set_response] in Htext, Hv, Hs.
  fold page_html in Htext, Hv, Hs. rewrite Hraw in Htext, Hv, Hs.
  apply request_loop_quiet in Hreq as [He Hi].
  assert (Ht : t = t0 ++ [LogInfo (U "Falling back on BeautifulSoup for '"
                                     ++ url0 ++ U "'")]).
  { apply (f_equal snd) in Ho. cbn [snd] in Ho. rewrite Ho.
    unfold parse_response. rewrite Hraise'.
    by destruct (extract_sentences _ _). }
  split; [done|]. split.
  - rewrite Htext. unfold visited. by rewrite visited_doc.
  - split; [|rewrite Ht, !count_app, He, Hi; cbn; lia].
    rewrite Hv, Hs. by destruct (visited tm (candidates tm fallback)) as [? [? ?]].
Qed.
End FallbackClaims.

(** On a page with one line break the fallback gives two, where the
    specification's wording keeps one. *)
Lemma C5_counterexample :
  Sample.handle Sample.broken_page = None
  /\ @PageRequest.fallback_text Sample.collaborators Sample.broken_page
     = [0] ++ U "a" ++ [nl; nl] ++ U "b"
  /\ spec_collapse Sample.broken_page = [0] ++ U "a" ++ [nl] ++ U "b"
  /\ @PageRequest.fallback_text Sample.collaborators Sample.broken_page
     <> spec_collapse Sample.broken_page.
Proof.
  split; [reflexivity|]. split; [reflexivity|]. split; [reflexivity|].
  vm_compute. discriminate.
Qed.

Lemma C5_witness :
  exists o t,
    @PageRequest.init Sample.collaborators Sample.config
      (Sample.serve Sample.broken_page) 1 Sample.address (U "a") = Done (o, t)
    /\ PageRequest.text o = JStr ([0] ++ U "a")
    /\ count is_error t = 0%nat /\ count is_info t = 1%nat.
Proof.
  eexists _, _. split; [reflexivity|].
  destruct (@C5_fallback_doubles_every_newline_run Sample.collaborators
              Sample.config (Sample.serve Sample.broken_page) 1 Sample.address
              (U "a") _ _ _ eq_refl eq_refl eq_refl)
    as (_ & Htext & _ & He & Hi).
  split; [exact Htext|]. split; [exact He|exact Hi].
Defined.

(** ** Presentation features *)

Section FeatureClaims.
Context `{Collaborators}.
Import PageRequest.

Lemma get_html_features_set (self : obj) (page_html : str) :
  term self <> [] ->
  features (get_html_features self page_html) =
  Some {| highlighted :=
            Re.search true (highlight_re (squashed (term self) []))
              (squashed page_html (U "<>/&;"));
          quotes :=
            Re.search true (quote_re (squashed (term self) []))
              (squashed page_html (U "<>/&;")) |}.
Proof.
  intros Hterm. unfold get_html_features, str_eqb.
  by rewrite bool_decide_eq_false_2.
Qed.


End FeatureClaims.



(** C8. The quote pattern wants the glyphs where a tag name goes. With
    a term set, [quotes] is true only if the squashed page has a [<] with
    an opening quote right after it and, further on, a [</] with a
    closing quote and a [>] right after it; and it is true whenever the
    squashed page has [<o>], the squashed term and [</c>] in a row, for
    any opening quote [o] and any closing quote [c], the low quote and
    the guillemet among them. A term with the glyphs around it in the
    text of an element, as in [<p>&bdquo;Term&raquo;</p>], is not
    reported. *)
Theorem C8_quotes_in_the_text_are_not_detected :
  (forall (H : Collaborators) (self : PageRequest.obj) (page_html : str),
      PageRequest.term self <> [] ->
      let mh := squashed page_html (U "<>/&;") in
      let mt := squashed (PageRequest.term self) [] in
      let found :=
        PageRequest.quotes <$>
          PageRequest.features (PageRequest.get_html_features self page_html) in
      (found = Some true ->
       exists pre o otxt rest c ctxt post,
         mh = pre ++ [60] ++ otxt ++ rest ++ U "</" ++ ctxt ++ [62] ++ post
         /\ o ∈ PageRequest.OPENING_QUOTES /\ ci_eq o otxt
         /\ c ∈ PageRequest.CLOSING_QUOTES /\ ci_eq c ctxt)
      /\ (forall o c pre post,
            o ∈ PageRequest.OPENING_QUOTES -> c ∈ PageRequest.CLOSING_QUOTES ->
            mh = pre ++ [60] ++ o ++ [62] ++ mt ++ U "</" ++ c ++ [62] ++ post ->
            found = Some true))
  /\ PageRequest.quotes <$>
       PageRequest.features
         (@PageRequest.get_html_features Sample.collaborators
            (PageRequest.new Sample.address (U "Term")) Sample.quoted_text_page)
     = Some false
  /\ U "&bdquo;" ∈ PageRequest.OPENING_QUOTES
  /\ U "&raquo;" ∈ PageRequest.CLOSING_QUOTES.
Proof.
  split; [|split; [vm_compute; reflexivity|]].
  - intros H self page_html Hterm mh mt found. subst found.
    rewrite (get_html_features_set self page_html Hterm).
    fold mh mt. cbn [fmap option_fmap option_map PageRequest.quotes]. split.
    + intros [= Hq]. apply quotes_iff in Hq
        as (pre & o & otxt & attrs & spaces & body & trail & c & ctxt & post
            & Hmh & Ho & Hotxt & _ & _ & _ & _ & Hc & Hctxt & _).
      exists pre, o, otxt, (attrs ++ [62] ++ spaces ++ body ++ trail), c, ctxt, post.
      rewrite Hmh, <- !app_assoc. done.
    + intros o c pre post Ho Hc Hmh. f_equal. apply quotes_iff.
      exists pre, o, o, [], [], mt, [], c, c, post.
      repeat split; try done; try apply same_refl; constructor.
  - split; apply list_elem_of_In; vm_compute; tauto.
Qed.

Lemma C8_witness :
  PageRequest.quotes <$>
    PageRequest.features
      (@PageRequest.get_html_features Sample.collaborators
         (PageRequest.new Sample.address (U "Term")) Sample.quoted_page)
  = Some true.
Proof.
  apply (proj2 (proj1 C8_quotes_in_the_text_are_not_detected
                  Sample.collaborators
                  (PageRequest.new Sample.address (U "Term")) Sample.quoted_page
                  ltac:(discriminate))
           (U "&bdquo;") (U "&raquo;") (U "<p>see") (U "</p>")).
  - apply list_elem_of_In. vm_compute. tauto.
  - apply list_elem_of_In. vm_compute. tauto.
  - reflexivity.
Defined.

(** * Further properties of the module *)

(** ** [PageRequest.request_page] *)

Section RetryLoop.
Context `{Collaborators}.
Import PageRequest.
Variable config : Config.
Variable world : World.

(** The loop hands back the first accepted response: [k] refused attempts
    and then an accepted one make [k + 1] GETs and [k] sleeps, with no
    error logged, provided the counter does not reach zero before and
    the sleeps, if there are any, return. *)
Lemma request_loop_first_accepted (k : nat) :
  (k = 0%nat \/ (0 <= request_seconds_before_retry config)%Z) ->
  forall (fuel : nat) (self : obj) (attempts : Z) (t : trace),
    (k < fuel)%nat ->
    (attempts < 0 \/ Z.of_nat k < attempts)%Z ->
    (forall i, (i < k)%nat ->
       failed (http world (url self) (count is_get t + i)) = true) ->
    failed (http world (url self) (count is_get t + k)) = false ->
    exists t',
      request_loop config world fuel self attempts t =
        Done (http world (url self) (count is_get t + k), t')
      /\ count is_get t' = (count is_get t + k + 1)%nat
      /\ count is_sleep t' = (count is_sleep t + k)%nat
      /\ count is_error t' = count is_error t.
Proof.
  induction k as [|k IH]; intros Hd fuel self attempts t Hfuel Hatt Hfail Hok.
  - destruct fuel as [|fuel]; [lia|]. cbn [request_loop].
    destruct (Z.eqb_spec attempts 0) as [E|_]; [lia|].
    rewrite Nat.add_0_r in Hok. rewrite Nat.add_0_r. unfold failed in Hok.
    destruct (http world (url self) (count is_get t)) as [r|]; [|done].
    apply negb_false_iff in Hok. rewrite Hok.
    exists (t ++ [Get (url self)]). rewrite !count_app. cbn. split; [done|lia].
  - destruct fuel as [|fuel]; [lia|].
    destruct Hd as [Hd|Hd]; [lia|].
    pose proof (Hfail 0%nat ltac:(lia)) as H0. rewrite Nat.add_0_r in H0.
    rewrite request_loop_turn by (done || lia).
    assert (Hg : count is_get
                   ((t ++ [Get (url self)]) ++ [Sleep (request_seconds_before_retry config)])
                 = S (count is_get t)).
    { rewrite !count_app. cbn. lia. }
    destruct (IH (or_intror Hd) fuel self (attempts - 1)%Z
                ((t ++ [Get (url self)]) ++ [Sleep (request_seconds_before_retry config)]))
      as (t' & Hrun & Hgets & Hsleeps & Herr).
    + lia.
    + lia.
    + intros i Hi. rewrite Hg.
      replace (S (count is_get t) + i)%nat with (count is_get t + S i)%nat by lia.
      apply Hfail. lia.
    + rewrite Hg.
      by replace (S (count is_get t) + k)%nat with (count is_get t + S k)%nat by lia.
    + exists t'. rewrite Hg in Hrun, Hgets.
      replace (S (count is_get t) + k)%nat with (count is_get t + S k)%nat in Hrun by lia.
      split; [done|]. rewrite !count_app in Hsleeps, Herr. cbn in Hsleeps, Herr. lia.
Qed.

(** X1. [request_page] returns the first response it accepts: when the
    first [k] GETs are refused and the next one is accepted, and
    [request_retry] is negative or above [k], and the delay between
    attempts is not negative unless the first GET is the accepted one,
    the result is that response, after [k + 1] GETs and [k] sleeps and
    with no error logged. *)
Theorem request_page_first_accepted (k fuel : nat) (self : obj) :
  (k < fuel)%nat ->
  (request_retry config < 0 \/ Z.of_nat k < request_retry config)%Z ->
  (k = 0%nat \/ (0 <= request_seconds_before_retry config)%Z) ->
  (forall i, (i < k)%nat -> failed (http world (url self) i) = true) ->
  failed (http world (url self) k) = false ->
  exists t,
    request_page config world fuel self [] = Done (http world (url self) k, t)
    /\ count is_get t = S k
    /\ count is_sleep t = k
    /\ count is_error t = 0%nat.
Proof.
  intros Hfuel Hretry Hd Hfail Hok.
  destruct (request_loop_first_accepted k Hd fuel self (request_retry config) []
              Hfuel Hretry Hfail Hok) as (t & Hrun & Hg & Hs & He).
  exists t. cbn in *. repeat split; [done|lia|lia|lia].
Qed.

(** With sleeps that return, the loop ends within [attempts] turns
    whatever the network does. *)
Lemma request_loop_ends (n : nat) :
  (0 <= request_seconds_before_retry config)%Z ->
  forall (fuel : nat) (self : obj) (t : trace),
    (n <= fuel)%nat ->
    exists r t' g,
      request_loop config world fuel self (Z.of_nat n) t = Done (r, t')
      /\ count is_get t' = (count is_get t + g)%nat
      /\ (g <= n)%nat
      /\ match r with
         | Some resp =>
             failed (Some resp) = false
             /\ count is_sleep t' = (count is_sleep t + (g - 1))%nat
             /\ (1 <= g)%nat
             /\ count is_error t' = count is_error t
         | None =>
             g = n
             /\ count is_sleep t' = (count is_sleep t + n)%nat
             /\ count is_error t' = S (count is_error t)
         end.
Proof.
  intros Hd. induction n as [|n IH]; intros fuel self t Hfuel.
  - exists None, (t ++ [LogError (U "Failed to return page for url: " ++ url self)]), 0%nat.
    split; [by destruct fuel|]. rewrite !count_app. cbn. repeat split; lia.
  - destruct fuel as [|fuel]; [lia|]. cbn [request_loop].
    destruct (Z.eqb_spec (Z.of_nat (S n)) 0) as [E|_]; [lia|].
    rewrite sleep_returns by done. cbn [mbind outcome_bind].
    replace (Z.of_nat (S n) - 1)%Z with (Z.of_nat n) by lia.
    assert (Hnext :
      exists r t' g,
        request_loop config world fuel self (Z.of_nat n)
          ((t ++ [Get (url self)]) ++ [Sleep (request_seconds_before_retry config)])
        = Done (r, t')
        /\ count is_get t' = (count is_get t + g)%nat
        /\ (g <= S n)%nat
        /\ match r with
           | Some resp =>
               failed (Some resp) = false
               /\ count is_sleep t' = (count is_sleep t + (g - 1))%nat
               /\ (1 <= g)%nat
               /\ count is_error t' = count is_error t
           | None =>
               g = S n
               /\ count is_sleep t' = (count is_sleep t + S n)%nat
               /\ count is_error t' = S (count is_error t)
           end).
    { destruct (IH fuel self
                  ((t ++ [Get (url self)]) ++ [Sleep (request_seconds_before_retry config)]))
        as (r & t' & g & Hrun & Hg & Hle & Hr); [lia|].
      exists r, t', (S g).
      assert (Hg0 : count is_get
                ((t ++ [Get (url self)]) ++ [Sleep (request_seconds_before_retry config)])
              = S (count is_get t)) by (rewrite !count_app; cbn; lia).
      assert (Hs0 : count is_sleep
                ((t ++ [Get (url self)]) ++ [Sleep (request_seconds_before_retry config)])
              = S (count is_sleep t)) by (rewrite !count_app; cbn; lia).
      assert (He0 : count is_error
                ((t ++ [Get (url self)]) ++ [Sleep (request_seconds_before_retry config)])
              = count is_error t) by (rewrite !count_app; cbn; lia).
      rewrite Hg0 in Hg. rewrite Hs0, He0 in Hr.
      split; [done|]. split; [lia|]. split; [lia|].
      destruct r as [resp|].
      - destruct Hr as (Hacc & Hs & H1 & He). repeat split; [done|lia|lia|lia].
      - destruct Hr as (-> & Hs & He). repeat split; lia. }
    destruct (http world (url self) (count is_get t)) as [r0|]; [|exact Hnext].
    destruct (resp_ok r0 && bool_decide (is_Some (resp_text r0))) eqn:Hacc;
      [|exact Hnext].
    exists (Some r0), (t ++ [Get (url self)]), 1%nat.
    rewrite !count_app. cbn. rewrite Hacc. cbn. repeat split; lia.
Qed.

(** X2. With [request_retry] and the delay between attempts not
    negative, [request_page] ends within
    [request_retry] turns of its loop whatever the network does, with at
    most [request_retry] GETs. When it returns a response, that response
    was accepted, one sleep followed each refused GET and no error is
    logged; when it returns nothing, it has made [request_retry] GETs,
    slept after each of them, the last one included, and logged one
    error. *)
Theorem request_page_ends (fuel : nat) (self : obj) :
  (0 <= request_retry config)%Z ->
  (0 <= request_seconds_before_retry config)%Z ->
  (Z.to_nat (request_retry config) <= fuel)%nat ->
  exists r t,
    request_page config world fuel self [] = Done (r, t)
    /\ (count is_get t <= Z.to_nat (request_retry config))%nat
    /\ match r with
       | Some resp =>
           failed (Some resp) = false
           /\ S (count is_sleep t) = count is_get t
           /\ count is_error t = 0%nat
       | None =>
           count is_get t = Z.to_nat (request_retry config)
           /\ count is_sleep t = Z.to_nat (request_retry config)
           /\ count is_error t = 1%nat
       end.
Proof.
  intros Hpos Hd Hfuel.
  destruct (request_loop_ends (Z.to_nat (request_retry config)) Hd fuel self [] Hfuel)
    as (r & t & g & Hrun & Hg & Hle & Hr).
  rewrite Z2Nat.id in Hrun by done. exists r, t. cbn in *.
  split; [done|]. split; [lia|]. destruct r as [resp|].
  - destruct Hr as (Hacc & Hs & H1 & He). repeat split; [done|lia|lia].
  - destruct Hr as (-> & Hs & He). repeat split; lia.
Qed.

(** X3. With a negative [request_retry] the counter never reaches zero:
    on a network that accepts no GET, and with a delay between attempts
    that is not negative, [request_page] is still in its loop after any
    number of turns. *)
Theorem request_page_negative_retry_runs_on (fuel : nat) (self : obj) :
  (request_retry config < 0)%Z ->
  (0 <= request_seconds_before_retry config)%Z ->
  (forall i, failed (http world (url self) i) = true) ->
  request_page config world fuel self [] = Running.
Proof.
  intros Hneg Hd Hfail. unfold request_page.
  by apply (request_loop_negative config world fuel Hd self (request_retry config) []).
Qed.
End RetryLoop.

Lemma request_page_first_accepted_witness :
  exists t,
    @PageRequest.request_page Sample.config (Sample.flaky 2 Sample.twice) 3
      (PageRequest.new Sample.address (U "term")) []
    = Done (Some {| resp_ok := true; resp_text := Some Sample.twice |}, t)
    /\ count is_get t = 3%nat /\ count is_sleep t = 2%nat
    /\ count is_error t = 0%nat.
Proof.
  apply (@request_page_first_accepted Sample.config (Sample.flaky 2 Sample.twice)
           2 3 (PageRequest.new Sample.address (U "term"))).
  - lia.
  - right. vm_compute. reflexivity.
  - right. vm_compute. discriminate.
  - intros i Hi. destruct i as [|[|i]]; [reflexivity|reflexivity|lia].
  - reflexivity.
Defined.

Lemma request_page_ends_witness :
  exists r t,
    @PageRequest.request_page Sample.config (Sample.flaky 5 Sample.twice) 3
      (PageRequest.new Sample.address (U "term")) [] = Done (r, t)
    /\ (count is_get t <= 3)%nat.
Proof.
  destruct (@request_page_ends Sample.config (Sample.flaky 5 Sample.twice) 3
              (PageRequest.new Sample.address (U "term")))
    as (r & t & Hrun & Hle & _).
  - vm_compute. discriminate.
  - vm_compute. discriminate.
  - vm_compute. lia.
  - exists r, t. split; [exact Hrun|exact Hle].
Defined.

Lemma request_page_negative_retry_witness :
  @PageRequest.request_page
    {| request_retry := -1; request_seconds_before_retry := 1;
       save_html := false; credentials_diffbot := U "token" |}
    (Sample.down ApiTransportError) 50
    (PageRequest.new Sample.address (U "term")) [] = Running.
Proof.
  apply (@request_page_negative_retry_runs_on
           {| request_retry := -1; request_seconds_before_retry := 1;
              save_html := false; credentials_diffbot := U "token" |}
           (Sample.down ApiTransportError) 50
           (PageRequest.new Sample.address (U "term"))).
  - reflexivity.
  - vm_compute. discriminate.
  - intros i. reflexivity.
Defined.

(** ** [PageRequest.extract_sentences] *)

Section Extraction.
Context `{Collaborators}.
Import PageRequest.

#[local] Abbreviation loop_state := (list str * (gset str * list Sentence))%type.

(** What the inner loop adds to the sentence list and to the variant
    set. *)
Lemma visited_added (tm : str) (l : list str) : forall st : loop_state,
  exists added,
    (foldl (visit_sentence tm) st l).2.2 = st.2.2 ++ added
    /\ (forall v, v ∈ (foldl (visit_sentence tm) st l).2.1 <->
                  v ∈ st.2.1 \/ exists e, e ∈ added /\ v ∈ found_variants tm (s e))
    /\ Forall (fun e => s e ∈ List.filter qualify_sentence l
                        /\ s_clean e = normalized tm (s e)
                        /\ found_variants tm (s e) <> []
                        /\ (s_clean e ∉ map s_clean st.2.2)) added.
Proof.
  induction l as [|x l IH]; intros st.
  - exists []. cbn [foldl]. rewrite app_nil_r. split; [done|]. split; [|done].
    intros v. split; [by left|]. intros [Hv|(e & He & _)]; [done|].
    by apply elem_of_nil in He.
  - cbn [foldl List.filter].
    destruct (IH (visit_sentence tm st x)) as (added & Hss & Hvs & Hall).
    destruct (visit_sentence_cases tm st x)
      as [[Hq Hst]|[(Hq & _ & Hst)|(Hq & Hf & Hfresh & Hst)]]; rewrite Hq.
    + rewrite Hst in *. by exists added.
    + rewrite Hst in *. cbn [fst snd] in *. exists added.
      split; [done|]. split; [done|].
      eapply Forall_impl; [exact Hall|].
      intros e (Hin & Hrest). split; [by apply list_elem_of_further|done].
    + rewrite Hst in *. cbn [fst snd] in *.
      exists ({| s := x; s_clean := normalized tm x |} :: added).
      split; [by rewrite Hss, <- app_assoc|]. split.
      * intros v. rewrite Hvs, elem_of_union, elem_of_list_to_set. split.
        -- intros [[Hv|Hv]|(e & He & Hv)].
           ++ right. eexists. split; [apply list_elem_of_here|done].
           ++ by left.
           ++ right. exists e. split; [by apply list_elem_of_further|done].
        -- intros [Hv|(e & He & Hv)]; [by left; right|].
           apply elem_of_cons in He as [->|He]; [by left; left|].
           right. by exists e.
      * constructor.
        -- cbn [s s_clean]. split; [apply list_elem_of_here|done].
        -- eapply Forall_impl; [exact Hall|].
           intros e (Hin & Hc & Hv & Hnot).
           split; [by apply list_elem_of_further|].
           split; [done|]. split; [done|].
           intros Hin'. apply Hnot. rewrite map_app.
           apply elem_of_app. by left.
Qed.

(** The normalized form of a sentence that came with variants is in the
    list once the sentence has been seen. *)
Lemma visited_covers (tm : str) (l : list str) : forall st : loop_state,
  Forall (fun x => found_variants tm x <> [] ->
                   normalized tm x ∈ map s_clean (foldl (visit_sentence tm) st l).2.2)
    (List.filter qualify_sentence l).
Proof.
  induction l as [|x l IH]; intros st; cbn [foldl List.filter]; [done|].
  destruct (qualify_sentence x) eqn:Hq; [|apply IH].
  constructor; [|apply IH].
  intros Hf.
  destruct (visited_added tm l (visit_sentence tm st x)) as (added & -> & _).
  rewrite map_app. apply elem_of_app. left.
  destruct (visit_sentence_cases tm st x)
    as [[Hq' _]|[(_ & Hor & ->)|(_ & _ & _ & ->)]]; [congruence| |].
  - cbn [snd]. by destruct Hor.
  - cbn [snd]. rewrite map_app. apply elem_of_app. right.
    apply list_elem_of_here.
Qed.

(** Sentences whose normalized forms are all in the list change neither
    the list nor the variant set. *)
Lemma visited_again (tm : str) (l : list str) : forall st : loop_state,
  Forall (fun x => found_variants tm x <> [] ->
                   normalized tm x ∈ map s_clean st.2.2)
    (List.filter qualify_sentence l) ->
  (foldl (visit_sentence tm) st l).2 = st.2.
Proof.
  induction l as [|x l IH]; intros st Hall; cbn [foldl List.filter] in *; [done|].
  destruct (visit_sentence_cases tm st x)
    as [[Hq Hst]|[(Hq & _ & Hst)|(Hq & Hf & Hfresh & Hst)]];
    rewrite Hq in Hall.
  - rewrite Hst. by apply IH.
  - apply Forall_cons in Hall as [_ Hall].
    rewrite IH; rewrite Hst; done.
  - apply Forall_cons in Hall as [Hx _]. by destruct Hfresh; apply Hx.
Qed.

(** X4. [extract_sentences] adds to what the request holds already: the
    sentence list keeps its entries and gets new ones at the end, and the
    variant set gets the variants of the new entries and nothing else.
    Each new entry is a qualified sentence of the text that came with
    variants, stored with its normalized form, which no earlier entry
    had. *)
Theorem extract_sentences_accumulates (self : obj) (page_text : str) :
  let o := (extract_sentences self page_text).1 in
  exists added,
    sentences o = sentences self ++ added
    /\ (forall v, v ∈ variants o <->
                  v ∈ variants self
                  \/ exists e, e ∈ added /\ v ∈ found_variants (term self) (s e))
    /\ Forall (fun e => s e ∈ qualified (term self) page_text
                        /\ s_clean e = normalized (term self) (s e)
                        /\ found_variants (term self) (s e) <> []
                        /\ (s_clean e ∉ map s_clean (sentences self))) added.
Proof.
  intros o. subst o.
  rewrite (extract_sentences_visited (term self)) by done. cbn [fst].
  destruct (visited_added (term self) (candidates (term self) page_text)
              ([], (variants self, sentences self))) as (added & Hss & Hvs & Hall).
  exists added. cbn [set_found sentences variants]. done.
Qed.

(** X5. No normalized form is lost: after [extract_sentences], every
    qualified sentence of the text that came with variants has its
    normalized form in the sentence list, under its own entry or under
    that of an earlier sentence. *)
Theorem extract_sentences_keeps_every_form (self : obj) (page_text : str) :
  let o := (extract_sentences self page_text).1 in
  Forall (fun x => found_variants (term self) x <> [] ->
                   normalized (term self) x ∈ map s_clean (sentences o))
    (qualified (term self) page_text).
Proof.
  intros o. subst o.
  rewrite (extract_sentences_visited (term self)) by done. cbn [fst].
  cbn [set_found sentences]. apply visited_covers.
Qed.

(** X6. A second run of [extract_sentences] on the same text adds
    nothing: the request is as the first run left it, and the text
    returned is the same. *)
Theorem extract_sentences_twice (self : obj) (page_text : str) :
  let first := extract_sentences self page_text in
  extract_sentences first.1 page_text = first.
Proof.
  intros first. subst first.
  rewrite (extract_sentences_visited (term self) self) by done. cbn [fst].
  rewrite (extract_sentences_visited (term self)) by done.
  cbn [set_found sentences variants term].
  set (st := foldl (visit_sentence (term self)) ([], (variants self, sentences self))
               (candidates (term self) page_text)).
  pose proof (visited_again (term self) (candidates (term self) page_text)
                ([], st.2)) as Hagain.
  cbn [snd] in Hagain.
  rewrite (surjective_pairing st.2) in Hagain at 1.
  assert (Hdoc : forall st0 : loop_state,
            (foldl (visit_sentence (term self)) st0
               (candidates (term self) page_text)).1
            = st0.1 ++ List.filter qualify_sentence (candidates (term self) page_text))
    by (intros st0; apply visited_doc).
  set (st2 := foldl (visit_sentence (term self)) ([], (st.2.1, st.2.2))
                (candidates (term self) page_text)) in *.
  assert (H2 : st2.2 = st.2).
  { rewrite Hagain; [by destruct st as [d [v ss]]|].
    cbn [snd]. apply (visited_covers (term self) _ ([], (variants self, sentences self))). }
  assert (H1 : st2.1 = st.1).
  { unfold st2, st. by rewrite !Hdoc. }
  rewrite H2, H1. done.
Qed.
End Extraction.

(** ** The paragraphs of the fallback text *)

Lemma split_blank_from_keep (acc : str) (c : char) (rest : str) :
  c <> nl -> split_blank_from acc (c :: rest) = split_blank_from (c :: acc) rest.
Proof.
  intros Hc. cbn [split_blank_from].
  destruct rest as [|d rest]; [done|].
  destruct (N.eqb_spec c nl) as [E|_]; [done|]. done.
Qed.

Lemma split_doubled_runs (text : str) : forall acc : str,
  (nl ∉ acc) ->
  Forall (fun paragraph : str => nl ∉ paragraph)
    (split_blank_from acc (double_newline_runs false text))
  /\ Forall (fun paragraph : str => nl ∉ paragraph)
       (split_blank_from acc (double_newline_runs true text)).
Proof.
  assert (Hrev : forall acc : str, (nl ∉ acc) -> nl ∉ rev acc).
  { intros acc Hacc Hin. apply Hacc.
    apply list_elem_of_In, in_rev, list_elem_of_In. exact Hin. }
  induction text as [|c text IH]; intros acc Hacc.
  - cbn. split; constructor; auto.
  - cbn [double_newline_runs]. destruct (N.eqb_spec c nl) as [->|Hc].
    + split; [|by apply IH].
      cbn [split_blank_from]. rewrite N.eqb_refl. cbn [andb].
      constructor; [by apply Hrev|].
      apply IH. apply not_elem_of_nil.
    + assert (Hacc' : nl ∉ c :: acc).
      { intros Hin. apply elem_of_cons in Hin as [E|Hin]; [by apply Hc|done]. }
      rewrite split_blank_from_keep by done.
      split; by apply IH.
Qed.

Section FallbackParagraphs.
Context `{Collaborators}.
Import PageRequest.

(** X7. On the fallback path no paragraph has a line break in it: the
    text of the page comes with every run of newlines written as a blank
    line, and [extract_sentences] cuts it at the blank lines, so what it
    tests with [is_english] and splits into sentences are the lines of
    the page. *)
Theorem fallback_paragraphs_are_lines (page_html : str) :
  Forall (fun paragraph : str => nl ∉ paragraph)
    (split_blank (fallback_text page_html)).
Proof.
  unfold fallback_text, split_blank. rewrite sub_newlines.
  apply split_doubled_runs, not_elem_of_nil.
Qed.
End FallbackParagraphs.

(** ** [PageRequest.get_meta] *)

Lemma lstrip_head (cs s : str) (c : char) :
  head (lstrip cs s) = Some c -> mem c cs = false.
Proof.
  induction s as [|d s IH]; [done|]. cbn [lstrip].
  destruct (mem d cs) eqn:E; [done|]. cbn. by intros [= <-].
Qed.

Lemma lstrip_suffix (cs s : str) : exists pre, s = pre ++ lstrip cs s.
Proof.
  induction s as [|d s [pre IH]]; [by exists []|]. cbn [lstrip].
  destruct (mem d cs); [|by exists []].
  exists (d :: pre). cbn. by rewrite <- IH.
Qed.

(** [s.strip(cs)] neither starts nor ends with a character of [cs]. *)
Lemma strip_ends (cs s : str) (c : char) :
  (head (strip cs s) = Some c -> mem c cs = false)
  /\ (last (strip cs s) = Some c -> mem c cs = false).
Proof.
  assert (R : forall l : str, rev l = reverse l) by (intros l; apply rev_alt).
  unfold strip. rewrite !R. rewrite head_reverse, last_reverse. split.
  - intros Hlast.
    destruct (lstrip_suffix cs (reverse (lstrip cs s))) as [pre Hpre].
    apply (lstrip_head cs s). rewrite <- last_reverse, Hpre, last_app, Hlast.
    done.
  - apply lstrip_head.
Qed.

Section Meta.
Context `{Collaborators}.
Import PageRequest.

(** X8. The author [get_meta] picks is never an empty string and never
    starts with [http], and it neither starts nor ends with a quote
    character; when no candidate is like that, the author is [None]. *)
Theorem get_meta_author_is_reasonable (self : obj) (page_html : str) :
  match author (get_meta self page_html) with
  | JNull => True
  | JStr a =>
      a <> []
      /\ startswith (U "http") a = false
      /\ (forall c, head a = Some c -> c <> sq /\ c <> dq)
      /\ (forall c, last a = Some c -> c <> sq /\ c <> dq)
  | _ => False
  end.
Proof.
  rewrite get_meta_author.
  destruct (List.filter reasonable
              (flat_map (authors_of page_html) (dict_items prop_names)))
    as [|a rest] eqn:E; [done|].
  assert (Hin : List.In a (List.filter reasonable
              (flat_map (authors_of page_html) (dict_items prop_names))))
    by (rewrite E; apply in_eq).
  apply List.filter_In in Hin as [Hin Hok].
  apply in_flat_map in Hin as (pv & _ & Hin).
  unfold authors_of in Hin. apply in_map_iff in Hin as (m & <- & _).
  unfold reasonable in Hok. apply andb_true_iff in Hok as [Hne Hhttp].
  apply negb_true_iff in Hne, Hhttp.
  split; [|split; [done|]].
  - intros Hnil. rewrite Hnil in Hne. done.
  - assert (Hq : forall c, mem c [sq; dq] = false -> c <> sq /\ c <> dq).
    { intros c Hc. cbn [mem existsb] in Hc.
      apply orb_false_iff in Hc as [H1 H2]. apply orb_false_iff in H2 as [H2 _].
      apply N.eqb_neq in H1, H2. done. }
    split; intros c Hc; apply Hq.
    + by apply (proj1 (strip_ends [sq; dq] m c)).
    + by apply (proj2 (strip_ends [sq; dq] m c)).
Qed.
End Meta.

(** ** The title of the page *)

Lemma one_step_lit {A} (ch : char) (t : str) (k : str -> option A) :
  Re.one_step false (Re.Lit ch) (ch :: t) k = k t.
Proof. unfold Re.one_step, Re.atom_ok, Re.chr_eq. by rewrite N.eqb_refl. Qed.

Lemma exec_lit {A} (p t : str) (c : Re.caps) (k : str -> Re.caps -> option A) :
  Re.exec false (Re.lit p) (p ++ t) c k = k t c.
Proof.
  induction p as [|a p IH]; [done|].
  change (Re.lit (a :: p)) with (Re.Seq (Re.One (Re.Lit a)) (Re.lit p)).
  cbn [Re.exec app]. rewrite one_step_lit. apply IH.
Qed.

(** A greedy repetition that cannot go on after [w] takes all of [w]
    when the rest of the pattern matches from there. *)
Lemma star_loop_greedy {A} icase a (w t : str) (k : str -> option A) x :
  forallb (Re.atom_ok icase a) w = true ->
  match t with ch :: _ => Re.atom_ok icase a ch = false | [] => True end ->
  k t = Some x ->
  Re.star_loop icase a (w ++ t) k = Some x.
Proof.
  intros Hw Ht Hk. induction w as [|c w IH].
  - cbn [app]. destruct t as [|ch t']; [done|]. cbn [Re.star_loop].
    by rewrite Ht.
  - cbn [forallb] in Hw. apply andb_true_iff in Hw as [Hc Hw].
    cbn [app Re.star_loop]. rewrite Hc, IH; done.
Qed.

Lemma plus_greedy {A} icase a (w t : str) (k : str -> option A) x :
  w <> [] ->
  forallb (Re.atom_ok icase a) w = true ->
  match t with ch :: _ => Re.atom_ok icase a ch = false | [] => True end ->
  k t = Some x ->
  Re.one_step icase a (w ++ t) (fun u => Re.star_loop icase a u k) = Some x.
Proof.
  intros Hne Hw Ht Hk. destruct w as [|c w]; [done|].
  cbn [forallb] in Hw. apply andb_true_iff in Hw as [Hc Hw].
  cbn [app Re.one_step]. rewrite Hc. by apply star_loop_greedy.
Qed.

Lemma take_matched (w t : str) : take (length (w ++ t) - length t) (w ++ t) = w.
Proof.
  rewrite length_app.
  replace (length w + length t - length t)%nat with (length w) by lia.
  by rewrite take_app_length.
Qed.

Lemma spaces_ok (w : str) :
  Forall (fun ch => ch = sp) w ->
  forallb (Re.atom_ok false (Re.Lit sp)) w = true.
Proof. induction 1 as [|ch w -> _ IH]; [done|]. cbn [forallb]. by rewrite IH. Qed.

Lemma spaces_inv (w : str) :
  forallb (Re.atom_ok false (Re.Lit sp)) w = true ->
  Forall (fun ch => ch = sp) w.
Proof.
  induction w as [|ch w IH]; [done|]. cbn [forallb]. intros Hw.
  apply andb_true_iff in Hw as [Hc Hw]. constructor; [|by apply IH].
  unfold Re.atom_ok, Re.chr_eq in Hc. apply N.eqb_eq in Hc. done.
Qed.

Lemma not_lt_ok (w : str) :
  (60 ∉ w) -> forallb (Re.atom_ok false (Re.Cls true [60])) w = true.
Proof.
  induction w as [|ch w IH]; [done|]. intros Hw. cbn [forallb].
  rewrite IH by (intros Hin; apply Hw; by apply list_elem_of_further).
  rewrite andb_true_r. unfold Re.atom_ok, Re.chr_eq. cbn [existsb].
  destruct (N.eqb_spec 60 ch) as [<-|_]; [|done].
  destruct Hw. apply list_elem_of_here.
Qed.

Lemma same_exact (p w : str) : Re.same false p w -> w = p.
Proof.
  induction 1 as [|a b p w Hab _ IH]; [done|].
  unfold Re.chr_eq in Hab. apply N.eqb_eq in Hab. by rewrite Hab, IH.
Qed.

Lemma startswith_app (p y : str) : startswith p (p ++ y) = true.
Proof. induction p as [|a p IH]; [done|]. cbn. by rewrite N.eqb_refl, IH. Qed.

Lemma has_sub_app (p x y : str) : has_sub p (x ++ p ++ y) = true.
Proof.
  induction x as [|a x IH].
  - cbn [app]. destruct (p ++ y) eqn:E; cbn [has_sub]; rewrite <- E;
      by rewrite startswith_app.
  - cbn [app has_sub]. rewrite IH. apply orb_true_r.
Qed.

(** Where the two texts part, the first one has run out or the second
    one has the character. *)
Lemma prefix_or_hit (p s' u rest : str) (ch : char) :
  p ++ ch :: s' = u ++ rest -> (ch ∉ u) -> exists k, p = u ++ k.
Proof.
  intros E Hu. apply app_eq_inv in E as [(k & -> & _)|(k & -> & E)]; [by exists k|].
  destruct k as [|x k].
  - exists []. by rewrite !app_nil_r.
  - injection E as <- _. destruct Hu. apply elem_of_app. right.
    apply list_elem_of_here.
Qed.

Lemma matches_seq_inv icase r1 r2 c w c' :
  Re.matches icase (Re.Seq r1 r2) c w c' ->
  exists w1 w2 c1,
    w = w1 ++ w2 /\ Re.matches icase r1 c w1 c1 /\ Re.matches icase r2 c1 w2 c'.
Proof. inversion 1; subst; eauto 6. Qed.

Lemma matches_one_inv icase a c w c' :
  Re.matches icase (Re.One a) c w c' ->
  exists ch, w = [ch] /\ Re.atom_ok icase a ch = true /\ c' = c.
Proof. inversion 1; subst; eauto. Qed.

Lemma matches_star_inv icase a c w c' :
  Re.matches icase (Re.Star a) c w c' ->
  forallb (Re.atom_ok icase a) w = true /\ c' = c.
Proof. inversion 1; subst; eauto. Qed.

(** The title pattern on a title element. *)
Lemma title_match (a b body c d post : str) :
  Forall (fun ch => ch = sp) a -> Forall (fun ch => ch = sp) b ->
  Forall (fun ch => ch = sp) c -> Forall (fun ch => ch = sp) d ->
  body <> [] -> (60 ∉ body) ->
  Re.match_at false PageRequest.title_re
    (60 :: a ++ U "title" ++ b ++ 62 :: body ++ U "</" ++ c ++ U "title"
        ++ d ++ 62 :: post)
  = Some (post, Re.set_cap 1 body Re.no_caps).
Proof.
  intros Ha Hb Hc Hd Hne Hbody.
  unfold Re.match_at, PageRequest.title_re, Re.seqs. cbn [foldr Re.exec].
  rewrite one_step_lit.
  apply star_loop_greedy; [by apply spaces_ok|reflexivity|].
  rewrite exec_lit.
  apply star_loop_greedy; [by apply spaces_ok|reflexivity|].
  rewrite one_step_lit.
  apply plus_greedy; [done|by apply not_lt_ok|reflexivity|].
  rewrite take_matched. rewrite exec_lit.
  apply star_loop_greedy; [by apply spaces_ok|reflexivity|].
  rewrite exec_lit.
  apply star_loop_greedy; [by apply spaces_ok|reflexivity|].
  rewrite one_step_lit. done.
Qed.

(** No match of the title pattern starts in a text without [title] that
    is followed by a [<]. *)
Lemma no_title_before (p rest : str) :
  p <> [] -> has_sub (U "title") p = false ->
  Re.match_at false PageRequest.title_re (p ++ 60 :: rest) = None.
Proof.
  intros Hne Hsub.
  destruct (Re.match_at false PageRequest.title_re (p ++ 60 :: rest)) eqn:E;
    [exfalso|done].
  assert (Hsome : is_Some (Re.match_at false PageRequest.title_re (p ++ 60 :: rest)))
    by (rewrite E; eauto).
  apply match_at_iff in Hsome as (w & t & c' & Hs & Hm).
  unfold PageRequest.title_re in Hm. rewrite !seqs_cons in Hm.
  apply matches_seq_inv in Hm as (w1 & w2 & c1 & -> & H1 & H2).
  apply matches_seq_inv in H2 as (w3 & w4 & c2 & -> & H3 & H4).
  apply matches_seq_inv in H4 as (w5 & w6 & c3 & -> & H5 & _).
  apply matches_one_inv in H1 as (ch1 & -> & _ & _).
  apply matches_star_inv in H3 as (Hw3 & _).
  apply matches_lit in H5 as [_ H5]. apply same_exact in H5 as ->.
  destruct p as [|ch0 p]; [done|].
  apply (f_equal (drop 1)) in Hs. cbn [app drop] in Hs.
  rewrite <- !app_assoc in Hs. rewrite (app_assoc w3) in Hs.
  apply prefix_or_hit in Hs as [k ->].
  - pose proof (has_sub_app (U "title") (ch0 :: w3) k) as Hyes.
    cbn [app] in Hyes. rewrite app_assoc in Hyes. congruence.
  - intros Hin. apply elem_of_app in Hin as [Hin|Hin].
    + apply spaces_inv in Hw3. rewrite Forall_forall in Hw3.
      by specialize (Hw3 _ Hin).
    + by repeat (apply elem_of_cons in Hin as [Hin|Hin]; [done|]);
        apply elem_of_nil in Hin.
Qed.

Lemma findall_title_skip (pre rest : str) : forall fuel : nat,
  has_sub (U "title") pre = false ->
  Re.findall_fuel (length pre + fuel) false PageRequest.title_re (pre ++ 60 :: rest)
  = Re.findall_fuel fuel false PageRequest.title_re (60 :: rest).
Proof.
  induction pre as [|ch pre IH]; intros fuel Hsub; [done|].
  cbn [length Nat.add Re.findall_fuel].
  rewrite (no_title_before (ch :: pre)) by done.
  cbn [app]. apply IH.
  cbn [has_sub] in Hsub. by apply orb_false_iff in Hsub as [_ Hsub].
Qed.

Lemma findall_first_title (pre rest body post : str) :
  has_sub (U "title") pre = false ->
  Re.match_at false PageRequest.title_re (60 :: rest)
  = Some (post, Re.set_cap 1 body Re.no_caps) ->
  (length post <= length rest)%nat ->
  exists more,
    Re.findall false PageRequest.title_re (pre ++ 60 :: rest) = body :: more.
Proof.
  intros Hpre Hm Hlen. unfold Re.findall. rewrite length_app. cbn [length].
  replace (S (length pre + S (length rest)))
    with (length pre + S (S (length rest)))%nat by lia.
  rewrite findall_title_skip by done.
  cbn [Re.findall_fuel]. rewrite Hm. cbn [length].
  assert (Hlt : (length post <? S (length rest))%nat = true)
    by (apply Nat.ltb_lt; lia).
  rewrite Hlt. eauto.
Qed.

Section Title.
Context `{Collaborators}.
Import PageRequest.

(** X9. The title is the text of the first title element, without the
    spaces and newlines around it: on a page with no [title] before its
    first [<title>] tag, where the tags may have spaces after [<] and
    before [>] and the text between them is not empty and has no [<],
    [get_meta] sets [self.title] to that text stripped. *)
Theorem get_meta_title_is_first_title_element
    (self : obj) (pre a b body c d post : str) :
  has_sub (U "title") pre = false ->
  Forall (fun ch => ch = sp) a -> Forall (fun ch => ch = sp) b ->
  Forall (fun ch => ch = sp) c -> Forall (fun ch => ch = sp) d ->
  body <> [] -> (60 ∉ body) ->
  title (get_meta self
           (pre ++ [60] ++ a ++ U "title" ++ b ++ [62] ++ body ++ U "</" ++ c
                ++ U "title" ++ d ++ [62] ++ post))
  = JStr (strip [sp; nl] body).
Proof.
  intros Hpre Ha Hb Hc Hd Hne Hbody.
  unfold get_meta. cbn [title set_title].
  change (pre ++ [60] ++ a ++ U "title" ++ b ++ [62] ++ body ++ U "</" ++ c
              ++ U "title" ++ d ++ [62] ++ post)
    with (pre ++ 60 :: a ++ U "title" ++ b ++ 62 :: body ++ U "</" ++ c
              ++ U "title" ++ d ++ 62 :: post).
  destruct (findall_first_title pre
              (a ++ U "title" ++ b ++ 62 :: body ++ U "</" ++ c
                 ++ U "title" ++ d ++ 62 :: post) body post)
    as [more ->]; [done|by apply title_match| |done].
  rewrite ?length_app. cbn [length]. rewrite ?length_app.
  cbn [length]. rewrite ?length_app. cbn [length]. lia.
Qed.
End Title.

Lemma get_meta_title_witness :
  PageRequest.title
    (@PageRequest.get_meta Sample.collaborators
       (PageRequest.new Sample.address (U "term"))
       (U "<html><head>" ++ [60] ++ [] ++ U "title" ++ [sp] ++ [62]
          ++ U " Terms and colours " ++ U "</" ++ [] ++ U "title" ++ []
          ++ [62] ++ U "</head></html>"))
  = JStr (U "Terms and colours").
Proof.
  apply (@get_meta_title_is_first_title_element Sample.collaborators
           (PageRequest.new Sample.address (U "term"))
           (U "<html><head>") [] [sp] (U " Terms and colours ") [] []
           (U "</head></html>")).
  - reflexivity.
  - constructor.
  - repeat constructor.
  - constructor.
  - constructor.
  - discriminate.
  - vm_compute. intros Hin.
    repeat (apply elem_of_cons in Hin as [Hin|Hin]; [discriminate Hin|]).
    by apply elem_of_nil in Hin.
Defined.

(** ** [PageRequest.get_html_features] *)

Section Features.
Context `{Collaborators}.
Import PageRequest.

(** X10. With a term that is not empty, [get_html_features] sets both
    flags, and each flag says exactly whether the squashed page has the
    squashed term wrapped: [highlighted] when the term stands, in any
    case, between a tag that begins with one of [em], [i], [b],
    [strong], [span] and the closing tag of the same name, [quotes] when
    it stands between a tag that begins with an opening quote and a
    closing tag that is a closing quote; in both, the opening tag may go
    on with anything but [>], spaces may come before the term, and
    spaces, commas and colons after it. *)
Theorem get_html_features_exact (self : obj) (page_html : str) :
  term self <> [] ->
  let mh := squashed page_html (U "<>/&;") in
  let mt := squashed (term self) [] in
  exists f,
    features (get_html_features self page_html) = Some f
    /\ (highlighted f = true <-> highlight_wrapped mt mh)
    /\ (quotes f = true <-> quote_wrapped mt mh).
Proof.
  intros Hterm mh mt. rewrite get_html_features_set by done.
  eexists. split; [reflexivity|]. cbn [highlighted quotes].
  split; [apply highlighted_iff|apply quotes_iff].
Qed.

Variable config : Config.
Variable world : World.

(** X11. A request for the empty term never gets features: whatever
    the page, [self.features] is the empty dict [__init__] put there,
    in the request and in its record. *)
Theorem empty_term_has_no_features
    (fuel : nat) (url0 : str) (o : obj) (t : trace) :
  init config world fuel url0 [] = Done (o, t) ->
  features o = None /\ r_features (structured config o) = None.
Proof.
  intros Hrun.
  assert (Hf : features o = None); [|by rewrite <- Hf].
  unfold init in Hrun.
  destruct (request_page config world fuel (new url0 []) [])
    as [[[r|] t0]|e|]; cbn [mbind outcome_bind mret outcome_ret] in Hrun;
    [| |done..].
  - injection Hrun as Hrun. apply (f_equal fst) in Hrun. cbn [fst] in Hrun.
    subst o. unfold parse_response.
    destruct (html2text_handle (default [] (resp_text r))) as [raw|].
    + destruct (extract_sentences _ raw) as [self' doc] eqn:E.
      rewrite (extract_sentences_visited []) in E by done.
      injection E as <- _. done.
    + destruct (extract_sentences _ (fallback_text _)) as [self' doc] eqn:E.
      rewrite (extract_sentences_visited []) in E by done.
      injection E as <- _. done.
  - by injection Hrun as <- _.
Qed.
End Features.

Lemma get_html_features_exact_witness :
  exists f,
    PageRequest.features
      (@PageRequest.get_html_features Sample.collaborators
         (PageRequest.new Sample.address (U "Term")) Sample.bold_page)
    = Some f
    /\ (PageRequest.highlighted f = true <->
        highlight_wrapped
          (@squashed Sample.collaborators
             (PageRequest.term (PageRequest.new Sample.address (U "Term"))) [])
          (@squashed Sample.collaborators Sample.bold_page (U "<>/&;")))
    /\ (PageRequest.quotes f = true <->
        quote_wrapped
          (@squashed Sample.collaborators
             (PageRequest.term (PageRequest.new Sample.address (U "Term"))) [])
          (@squashed Sample.collaborators Sample.bold_page (U "<>/&;"))).
Proof.
  refine (@get_html_features_exact Sample.collaborators
            (PageRequest.new Sample.address (U "Term")) Sample.bold_page _).
  discriminate.
Defined.

Lemma empty_term_witness :
  match @PageRequest.init Sample.collaborators Sample.config
          (Sample.serve Sample.bold_page) 1 Sample.address [] with
  | Done (o, _) => PageRequest.features o = None
  | _ => False
  end.
Proof.
  destruct (@PageRequest.init Sample.collaborators Sample.config
              (Sample.serve Sample.bold_page) 1 Sample.address [])
    as [[o t]|e|] eqn:E.
  - apply (@empty_term_has_no_features Sample.collaborators Sample.config
             (Sample.serve Sample.bold_page) 1 Sample.address o t E).
  - vm_compute in E. discriminate E.
  - vm_compute in E. discriminate E.
Defined.

(** ** [DiffbotRequest] *)

Section Diffbot.
Context `{Collaborators}.
Import PageRequest.
Variable config : Config.
Variable world : World.

(** [parse_response] ends well only on a body whose first object is a
    dict with a string under [html]. *)
Lemma diffbot_parse_response_Done (self : obj) (j : json) (o : obj) :
  DiffbotRequest.parse_response self j = Done o ->
  exists l first rest page_html,
    j = JObj l
    /\ assoc (U "objects") l = Some (JArr (JObj first :: rest))
    /\ assoc (U "html") first = Some (JStr page_html)
    /\ html o = JStr page_html
    /\ response o = response self.
Proof.
  unfold DiffbotRequest.parse_response.
  destruct j as [|b|z|s0|l0|l]; try discriminate.
  cbn [getitem]. destruct (assoc (U "objects") l) as [v|] eqn:Hobjects;
    [|discriminate].
  cbn [mbind outcome_bind].
  destruct v as [|b|z|[|c s0]|[|first rest]|l0]; try discriminate.
  cbn [getitem0 mbind outcome_bind].
  destruct first as [|b|z|s0|l0|first]; try discriminate.
  cbn [py_get mbind outcome_bind].
  destruct (assoc (U "html") first) as [[|b|z|page_html|l0|l0]|] eqn:Hhtml;
    cbn [default from_option id mbind outcome_bind mret outcome_ret];
    try discriminate.
  intros [= <-]. exists l, first, rest, page_html.
  split; [done|]. split; [done|]. split; [done|].
  match goal with
  | |- context [get_html_features ?x ?y] =>
      destruct (get_html_features_frame x y)
        as (_ & _ & _ & _ & _ & -> & _ & _ & ->)
  end.
  rewrite (extract_sentences_visited (term self)) by done. done.
Qed.

(** X12. An article without usable html makes the constructor raise:
    when the API answers with a list of objects whose first element is
    not a dict, or is a dict with no string under [html], then
    [DiffbotRequest(url, term)] ends with an [AttributeError] instead of
    a request. *)
Theorem diffbot_article_without_html_raises
    (url0 tm : str) (l : list (str * json)) (first : json) (rest : list json) :
  api world (credentials_diffbot config) url0 = ApiDecoded (JObj l) ->
  assoc (U "objects") l = Some (JArr (first :: rest)) ->
  (forall fl page_html,
     first = JObj fl -> assoc (U "html") fl <> Some (JStr page_html)) ->
  DiffbotRequest.init config world url0 tm = Raised AttributeError.
Proof.
  intros Hapi Hobjects Hno.
  assert (Hc : DiffbotRequest.checked_response config world (new url0 tm)
               = Done (JObj l)).
  { apply checked_response_Done. split; [done|].
    unfold valid_body. by rewrite Hobjects. }
  unfold DiffbotRequest.init, DiffbotRequest.request_page. rewrite Hc.
  assert (Ht : truthy (JObj l) = true) by (by destruct l).
  rewrite Ht. unfold DiffbotRequest.parse_response.
  cbn [getitem]. rewrite Hobjects. cbn [mbind outcome_bind getitem0].
  destruct first as [|b|z|s0|l0|fl]; try reflexivity.
  cbn [py_get mbind outcome_bind].
  destruct (assoc (U "html") fl) as [[|b|z|page_html|l0|l0]|] eqn:Hhtml;
    cbn [default from_option id mbind outcome_bind mret outcome_ret];
    try reflexivity.
  destruct (Hno fl page_html eq_refl Hhtml).
Qed.

(** X13. A Diffbot request that comes back has made one call to the
    article API and none to the page, whatever [request_retry] says.
    Either it holds no response and has logged one error, or it holds
    the decoded body, has logged nothing, and its html is the string
    under [html] in the first of the body's objects, a dict. *)
Theorem diffbot_request_calls_once (url0 tm : str) (o : obj) (t : trace) :
  DiffbotRequest.init config world url0 tm = Done (o, t) ->
  count is_api t = 1%nat /\ count is_get t = 0%nat /\ count is_sleep t = 0%nat
  /\ ((response o = None /\ count is_error t = 1%nat)
      \/ (exists l first rest page_html,
            api world (credentials_diffbot config) url0 = ApiDecoded (JObj l)
            /\ response o = Some (Api (JObj l))
            /\ assoc (U "objects") l = Some (JArr (JObj first :: rest))
            /\ assoc (U "html") first = Some (JStr page_html)
            /\ html o = JStr page_html
            /\ count is_error t = 0%nat)).
Proof.
  unfold DiffbotRequest.init, DiffbotRequest.request_page.
  destruct (DiffbotRequest.checked_response config world (new url0 tm))
    as [j|e|] eqn:Hc.
  - apply checked_response_Done in Hc as [Hapi Hv]. cbn [url new] in Hapi.
    assert (Ht : truthy j = true).
    { destruct j as [|b|z|s0|l0|l]; try discriminate.
      unfold valid_body in Hv. by destruct l. }
    rewrite Ht.
    destruct (DiffbotRequest.parse_response
                (set_response (Some (Api j)) (new url0 tm)) j)
      as [o'|e|] eqn:Hp; cbn [mbind outcome_bind mret outcome_ret];
      [|discriminate..].
    intros [= <- <-].
    apply diffbot_parse_response_Done in Hp
      as (l & first & rest & page_html & -> & Hobjects & Hhtml & Ho & Hr).
    repeat split; try reflexivity. right.
    exists l, first, rest, page_html. done.
  - intros [= <- <-]. repeat split; try reflexivity. by left.
  - intros [= <- <-]. repeat split; try reflexivity. by left.
Qed.
End Diffbot.

Lemma diffbot_raises_witness :
  @DiffbotRequest.init Sample.collaborators Sample.config
    (Sample.down
       (ApiDecoded
          (JObj [ (U "objects",
                   JArr [ JObj [ (U "text", JStr (U "A term here.")) ] ]) ])))
    Sample.address (U "term")
  = Raised AttributeError.
Proof.
  apply (@diffbot_article_without_html_raises Sample.collaborators Sample.config
           (Sample.down
              (ApiDecoded
                 (JObj [ (U "objects",
                          JArr [ JObj [ (U "text", JStr (U "A term here.")) ] ]) ])))
           Sample.address (U "term")
           [ (U "objects", JArr [ JObj [ (U "text", JStr (U "A term here.")) ] ]) ]
           (JObj [ (U "text", JStr (U "A term here.")) ]) []).
  - reflexivity.
  - reflexivity.
  - intros fl page_html [= <-]. vm_compute. discriminate.
Defined.

Lemma diffbot_calls_once_witness :
  match @DiffbotRequest.init Sample.collaborators Sample.config
          (Sample.down (ApiDecoded Sample.article)) Sample.address (U "term") with
  | Done (o, t) =>
      count is_api t = 1%nat /\ count is_get t = 0%nat
      /\ PageRequest.html o = JStr (U "<p>A <b>term</b> here.</p>")
  | _ => False
  end.
Proof.
  destruct (@DiffbotRequest.init Sample.collaborators Sample.config
              (Sample.down (ApiDecoded Sample.article)) Sample.address (U "term"))
    as [[o t]|e|] eqn:E.
  - destruct (@diffbot_request_calls_once Sample.collaborators Sample.config
                (Sample.down (ApiDecoded Sample.article)) Sample.address
                (U "term") o t E) as (Ha & Hg & _ & _).
    split; [exact Ha|]. split; [exact Hg|].
    vm_compute in E. injection E as <- _. reflexivity.
  - vm_compute in E. discriminate E.
  - vm_compute in E. discriminate E.
Defined.

(** ** The request and its record *)

Section Run.
Context `{Collaborators}.
Import PageRequest.
Variable config : Config.
Variable world : World.

(** The loop only hands back a response it accepted. *)
Lemma request_loop_accepts (fuel : nat) :
  forall (self : obj) (attempts : Z) (t t' : trace) (r : Response),
    request_loop config world fuel self attempts t = Done (Some r, t') ->
    failed (Some r) = false.
Proof.
  induction fuel as [|fuel IH]; intros self attempts t t' r; cbn [request_loop];
    destruct (attempts =? 0)%Z; try discriminate.
  assert (Hretry :
    (t2 ← sleep (request_seconds_before_retry config) (t ++ [Get (url self)]);
     request_loop config world fuel self (attempts - 1) t2) = Done (Some r, t') ->
    failed (Some r) = false).
  { unfold sleep. destruct (request_seconds_before_retry config <? 0)%Z; cbn [mbind outcome_bind]; [discriminate|].
    apply IH. }
  destruct (http world (url self) (count is_get t)) as [r0|]; [|exact Hretry].
  destruct (resp_ok r0 && bool_decide (is_Some (resp_text r0))) eqn:Hacc;
    [|exact Hretry].
  intros [= <- _]. unfold failed. by rewrite Hacc.
Qed.

Lemma parse_response_trace (self : obj) (r : Response) (t : trace) :
  (parse_response self r t).2 =
  match html2text_handle (default [] (resp_text r)) with
  | Some _ => t
  | None =>
      t ++ [LogInfo (U "Falling back on BeautifulSoup for '" ++ url self ++ U "'")]
  end.
Proof.
  unfold parse_response.
  destruct (html2text_handle (default [] (resp_text r))) as [raw|];
    by destruct (extract_sentences _ _).
Qed.

(** X14. The variants of the record are those of its sentences: after
    a run, the record lists each variant once, and a string is listed
    exactly when [clean_sentence] found it in one of the sentences the
    record retains. *)
Theorem record_variants_come_from_its_sentences
    (fuel : nat) (url0 tm : str) (o : obj) (t : trace) :
  init config world fuel url0 tm = Done (o, t) ->
  let record := structured config o in
  NoDup (r_variants record)
  /\ forall v, v ∈ r_variants record <->
               exists e, e ∈ r_sentences record /\ v ∈ found_variants tm (s e).
Proof.
  intros Hrun record. subst record. cbn [r_variants r_sentences structured].
  split; [apply NoDup_elements|]. intros v. rewrite elem_of_elements.
  unfold init in Hrun.
  destruct (request_page config world fuel (new url0 tm) [])
    as [[[r|] t0]|e|]; cbn [mbind outcome_bind mret outcome_ret] in Hrun;
    [| |done..].
  - injection Hrun as Hrun. apply (f_equal fst) in Hrun. cbn [fst] in Hrun.
    subst o.
    pose proof (parse_response_found
                  (set_response (Some (Http r)) (new url0 tm)) r t0
                  eq_refl eq_refl) as (_ & _ & _ & _ & -> & -> & _).
    cbn [term set_response new]. unfold visited.
    destruct (visited_added tm (candidates tm (raw_text (default [] (resp_text r))))
                ([], (∅, []))) as (added & -> & Hvs & _).
    cbn [fst snd app] in *. rewrite Hvs. split.
    + intros [Hv|He]; [by apply elem_of_empty in Hv|done].
    + by right.
  - injection Hrun as <- _. cbn [variants sentences set_response new]. split.
    + intros Hv. by apply elem_of_empty in Hv.
    + intros (e & He & _). by apply elem_of_nil in He.
Qed.

(** X15. A request that holds a response after a run was built from
    a response the fetch accepted, one that is truthy and has a text;
    its html is that text, no error was logged, and the notice of the
    fallback was logged once when [html2text] raised on the page and not
    at all otherwise. *)
Theorem request_with_response_was_parsed
    (fuel : nat) (url0 tm : str) (o : obj) (t : trace) (r : Response) :
  init config world fuel url0 tm = Done (o, t) ->
  response o = Some (Http r) ->
  exists page_html,
    resp_ok r = true /\ resp_text r = Some page_html
    /\ html o = JStr page_html
    /\ count is_error t = 0%nat
    /\ count is_info t =
       match html2text_handle page_html with Some _ => 0%nat | None => 1%nat end.
Proof.
  intros Hrun Hresp.
  destruct (init_parsed config world fuel url0 tm o t r Hrun Hresp)
    as (t0 & Hreq & Hparse).
  pose proof (request_loop_accepts _ _ _ _ _ _ Hreq) as Hacc.
  pose proof (request_loop_quiet config world _ _ _ _ _ _ Hreq) as [He Hi].
  unfold failed in Hacc. apply negb_false_iff, andb_true_iff in Hacc as [Hok Htext].
  apply bool_decide_eq_true in Htext as [page_html Htext].
  exists page_html. split; [done|]. split; [done|].
  pose proof (parse_response_found
                (set_response (Some (Http r)) (new url0 tm)) r t0
                eq_refl eq_refl) as (_ & _ & Hhtml & _).
  pose proof (parse_response_trace
                (set_response (Some (Http r)) (new url0 tm)) r t0) as Htrace.
  rewrite <- Hparse in Hhtml, Htrace. cbn [fst snd] in Hhtml, Htrace.
  rewrite Htext in Hhtml, Htrace. cbn [default from_option id] in Hhtml, Htrace.
  split; [done|]. rewrite Htrace.
  destruct (html2text_handle page_html).
  - done.
  - rewrite !count_app. cbn in He, Hi. rewrite He, Hi. done.
Qed.
End Run.

Lemma record_variants_witness :
  match @PageRequest.init Sample.collaborators Sample.config
          (Sample.serve Sample.twice) 1 Sample.address (U "term") with
  | Done (o, _) =>
      NoDup (PageRequest.r_variants
               (@PageRequest.structured Sample.collaborators Sample.config o))
  | _ => False
  end.
Proof.
  destruct (@PageRequest.init Sample.collaborators Sample.config
              (Sample.serve Sample.twice) 1 Sample.address (U "term"))
    as [[o t]|e|] eqn:E.
  - apply (@record_variants_come_from_its_sentences Sample.collaborators
             Sample.config (Sample.serve Sample.twice) 1 Sample.address
             (U "term") o t E).
  - vm_compute in E. discriminate E.
  - vm_compute in E. discriminate E.
Defined.

Lemma request_with_response_witness :
  match @PageRequest.init Sample.collaborators Sample.config
          (Sample.flaky 1 Sample.broken_page) 2 Sample.address (U "a") with
  | Done (o, t) =>
      PageRequest.html o = JStr Sample.broken_page
      /\ count is_error t = 0%nat /\ count is_info t = 1%nat
  | _ => False
  end.
Proof.
  destruct (@PageRequest.init Sample.collaborators Sample.config
              (Sample.flaky 1 Sample.broken_page) 2 Sample.address (U "a"))
    as [[o t]|e|] eqn:E.
  - assert (Hresp : PageRequest.response o
                    = Some (PageRequest.Http
                              {| resp_ok := true;
                                 resp_text := Some Sample.broken_page |})).
    { vm_compute in E. injection E as <- _. reflexivity. }
    destruct (@request_with_response_was_parsed Sample.collaborators
                Sample.config (Sample.flaky 1 Sample.broken_page) 2
                Sample.address (U "a") o t _ E Hresp)
      as (page_html & _ & Htext & Hhtml & He & Hi).
    injection Htext as <-. split; [exact Hhtml|]. split; [exact He|exact Hi].
  - vm_compute in E. discriminate E.
  - vm_compute in E. discriminate E.
Defined.

(** ** The shape of the title *)

Lemma matches_plus_inv icase a c w c' :
  Re.matches icase (Re.Plus a) c w c' ->
  w <> [] /\ forallb (Re.atom_ok icase a) w = true /\ c' = c.
Proof.
  inversion 1; subst. split; [done|]. split; [|done].
  cbn [forallb]. by apply andb_true_iff.
Qed.

Lemma not_lt_inv (w : str) :
  forallb (Re.atom_ok false (Re.Cls true [60])) w = true -> 60 ∉ w.
Proof.
  induction w as [|ch w IH]; [intros _; apply not_elem_of_nil|].
  cbn [forallb]. intros Hw. apply andb_true_iff in Hw as [Hc Hw].
  intros Hin. apply elem_of_cons in Hin as [<-|Hin]; [|by apply IH].
  unfold Re.atom_ok, Re.chr_eq in Hc. cbn [existsb] in Hc.
  by rewrite N.eqb_refl in Hc.
Qed.

(** Every string [findall] returns is the first group of a match. *)
Lemma findall_fuel_sound (icase : bool) (r : Re.re) (g : str) (fuel : nat) :
  forall s : str,
    g ∈ Re.findall_fuel fuel icase r s ->
    exists s' t c, Re.match_at icase r s' = Some (t, c) /\ Re.group 1 c = g.
Proof.
  induction fuel as [|fuel IH]; intros s; cbn [Re.findall_fuel].
  - intros Hin. by apply elem_of_nil in Hin.
  - destruct (Re.match_at icase r s) as [[t c]|] eqn:E; destruct s as [|ch s'];
      try (intros Hin; by apply elem_of_nil in Hin); try apply IH.
    destruct (length t <? length (ch :: s'))%nat; [|apply IH].
    intros Hin. apply elem_of_cons in Hin as [->|Hin]; [eauto|by eapply IH].
Qed.

(** The group of a match of the title pattern is a text without [<]. *)
Lemma title_group (s t : str) (c : Re.caps) :
  Re.match_at false PageRequest.title_re s = Some (t, c) ->
  (60 ∉ Re.group 1 c).
Proof.
  unfold Re.match_at. intros Hx.
  apply exec_sound in Hx as (w & t' & c' & _ & Hm & [= _ <-]).
  unfold PageRequest.title_re in Hm. rewrite !seqs_cons in Hm.
  apply matches_seq_inv in Hm as (w1 & v1 & c1 & _ & H1 & Hm).
  apply matches_one_inv in H1 as (_ & _ & _ & ->).
  apply matches_seq_inv in Hm as (w2 & v2 & c2 & _ & H2 & Hm).
  apply matches_star_inv in H2 as [_ ->].
  apply matches_seq_inv in Hm as (w3 & v3 & c3 & _ & H3 & Hm).
  apply matches_lit in H3 as [-> _].
  apply matches_seq_inv in Hm as (w4 & v4 & c4 & _ & H4 & Hm).
  apply matches_star_inv in H4 as [_ ->].
  apply matches_seq_inv in Hm as (w5 & v5 & c5 & _ & H5 & Hm).
  apply matches_one_inv in H5 as (_ & _ & _ & ->).
  apply matches_seq_inv in Hm as (body & v6 & c6 & _ & H6 & Hm).
  apply matches_grp_inv in H6 as (c6' & H6 & ->).
  apply matches_plus_inv in H6 as (_ & Hbody & ->).
  apply matches_seq_inv in Hm as (w7 & v7 & c7 & _ & H7 & Hm).
  apply matches_lit in H7 as [-> _].
  apply matches_seq_inv in Hm as (w8 & v8 & c8 & _ & H8 & Hm).
  apply matches_star_inv in H8 as [_ ->].
  apply matches_seq_inv in Hm as (w9 & v9 & c9 & _ & H9 & Hm).
  apply matches_lit in H9 as [-> _].
  apply matches_seq_inv in Hm as (w10 & v10 & c10 & _ & H10 & Hm).
  apply matches_star_inv in H10 as [_ ->].
  apply matches_seq_inv in Hm as (w11 & v11 & c11 & _ & H11 & Hm).
  apply matches_one_inv in H11 as (_ & _ & _ & ->).
  inversion Hm; subst.
  unfold Re.group, Re.set_cap. cbn [Nat.eqb default from_option id].
  by apply not_lt_inv.
Qed.

Lemma lstrip_sub (cs s : str) (c : char) : c ∈ lstrip cs s -> c ∈ s.
Proof.
  destruct (lstrip_suffix cs s) as [pre Hpre]. intros Hin.
  rewrite Hpre. apply elem_of_app. by right.
Qed.

Lemma strip_sub (cs s : str) (c : char) : c ∈ strip cs s -> c ∈ s.
Proof.
  unfold strip. intros Hin.
  apply list_elem_of_In, in_rev, list_elem_of_In in Hin.
  apply lstrip_sub in Hin.
  apply list_elem_of_In, in_rev, list_elem_of_In in Hin.
  by apply lstrip_sub in Hin.
Qed.

Section TitleShape.
Context `{Collaborators}.
Import PageRequest.

(** X16. Whatever the page, the title [get_meta] sets is [None] or a
    string with no [<] in it that neither starts nor ends with a space
    or a newline. *)
Theorem get_meta_title_is_clean (self : obj) (page_html : str) :
  match title (get_meta self page_html) with
  | JNull => True
  | JStr x =>
      (60 ∉ x)
      /\ (forall c, head x = Some c -> c <> sp /\ c <> nl)
      /\ (forall c, last x = Some c -> c <> sp /\ c <> nl)
  | _ => False
  end.
Proof.
  unfold get_meta. cbn [title set_title].
  destruct (Re.findall false title_re page_html) as [|x rest] eqn:E; [done|].
  assert (Hin : x ∈ Re.findall false title_re page_html)
    by (rewrite E; apply list_elem_of_here).
  apply findall_fuel_sound in Hin as (s' & t & c & Hm & <-).
  apply title_group in Hm.
  assert (Hq : forall c0, mem c0 [sp; nl] = false -> c0 <> sp /\ c0 <> nl).
  { intros c0 Hc. cbn [mem existsb] in Hc.
    apply orb_false_iff in Hc as [H1 H2]. apply orb_false_iff in H2 as [H2 _].
    apply N.eqb_neq in H1, H2. done. }
  split; [|split].
  - intros Hin. by apply strip_sub in Hin.
  - intros c0 Hc. by apply Hq, (proj1 (strip_ends [sp; nl] (Re.group 1 c) c0)).
  - intros c0 Hc. by apply Hq, (proj2 (strip_ends [sp; nl] (Re.group 1 c) c0)).
Qed.

End TitleShape.

(** ** A request without a response *)

Section BlankRequest.
Context `{Collaborators}.
Import PageRequest.
Variable config : Config.
Variable world : World.

(** A fetch that ends with nothing has logged one error. *)
Lemma request_loop_gives_up (fuel : nat) :
  forall (self : obj) (attempts : Z) (t t' : trace),
    request_loop config world fuel self attempts t = Done (None, t') ->
    count is_error t' = S (count is_error t).
Proof.
  assert (Hlast : forall (self : obj) (t : trace),
            count is_error
              (t ++ [LogError (U "Failed to return page for url: " ++ url self)])
            = S (count is_error t)).
  { intros self t. rewrite count_app. cbn. lia. }
  assert (Hstep : forall (self : obj) (t : trace),
            count is_error
              ((t ++ [Get (url self)])
                 ++ [Sleep (request_seconds_before_retry config)])
            = count is_error t).
  { intros self t. rewrite !count_app. cbn. lia. }
  induction fuel as [|fuel IH]; intros self attempts t t'; cbn [request_loop];
    destruct (attempts =? 0)%Z; try discriminate;
    try (intros [= <-]; apply Hlast).
  assert (Hretry :
    (t2 ← sleep (request_seconds_before_retry config) (t ++ [Get (url self)]);
     request_loop config world fuel self (attempts - 1) t2) = Done (None, t') ->
    count is_error t' = S (count is_error t)).
  { unfold sleep. destruct (request_seconds_before_retry config <? 0)%Z; cbn [mbind outcome_bind]; [discriminate|].
    intros Hrun. apply IH in Hrun. by rewrite Hstep in Hrun. }
  destruct (http world (url self) (count is_get t)) as [r0|]; [|exact Hretry].
  destruct (resp_ok r0 && bool_decide (is_Some (resp_text r0)));
    [discriminate|exact Hretry].
Qed.

(** X17. A request that holds no response after a run holds nothing
    else either: it is as [__init__] set it up, with an empty text, no
    sentences, no variants, no features, no author and no title, and
    the run has logged one error. *)
Theorem request_without_response_is_blank
    (fuel : nat) (url0 tm : str) (o : obj) (t : trace) :
  init config world fuel url0 tm = Done (o, t) ->
  response o = None ->
  o = new url0 tm /\ count is_error t = 1%nat.
Proof.
  unfold init.
  destruct (request_page config world fuel (new url0 tm) [])
    as [[[r|] t0]|e|] eqn:Hreq; cbn [mbind outcome_bind mret outcome_ret];
    [| |done..].
  - intros Hrun Hresp. exfalso.
    injection Hrun as Hrun. apply (f_equal fst) in Hrun. cbn [fst] in Hrun.
    pose proof (parse_response_found
                  (set_response (Some (Http r)) (new url0 tm)) r t0
                  eq_refl eq_refl) as (_ & _ & _ & _ & _ & _ & Hr).
    rewrite Hrun, Hresp in Hr. discriminate Hr.
  - intros [= <- <-] _. split; [done|].
    apply request_loop_gives_up in Hreq. exact Hreq.
Qed.
End BlankRequest.

Lemma request_without_response_witness :
  match @PageRequest.init Sample.collaborators Sample.config
          (Sample.down ApiTransportError) 3 Sample.address (U "term") with
  | Done (o, t) =>
      o = PageRequest.new Sample.address (U "term")
      /\ count is_error t = 1%nat
  | _ => False
  end.
Proof.
  destruct (@PageRequest.init Sample.collaborators Sample.config
              (Sample.down ApiTransportError) 3 Sample.address (U "term"))
    as [[o t]|e|] eqn:E.
  - apply (@request_without_response_is_blank Sample.collaborators Sample.config
             (Sample.down ApiTransportError) 3 Sample.address (U "term") o t E).
    vm_compute in E. injection E as <- _. reflexivity.
  - vm_compute in E. discriminate E.
  - vm_compute in E. discriminate E.
Defined.
